(** * kernel-wasm: the execution engine's checked memory slice, the session
      commands and the run/cancel handshake

    Shallow embedding of [vm.h] and of the character-device command handlers
    ([handle_wasm_load_code], [handle_wasm_run_code], [code_runner_inner]).

    Conventions.
    - [unsigned long], [size_t] and pointers are 64-bit (the module targets
      the x86-64 kernel); they are integers in [0, 2^64) and every C
      operation on them is written with its wrap-around.
    - [uint32_t] values are integers in [0, 2^32).
    - The null pointer is the address 0. *)

From Stdlib Require Import ZArith Lia List Bool.
From stdpp Require Import base gmap.
Import ListNotations.

Local Open Scope Z_scope.

(** ** Machine integers *)

Module Mach.

Definition ULONG_BITS : Z := 64.
Definition ULONG_MOD : Z := 2 ^ ULONG_BITS.
Definition ULONG_MAX : Z := ULONG_MOD - 1.
Definition U32_MOD : Z := 2 ^ 32.

(** Conversion of a mathematical integer to [unsigned long]. *)
Definition to_ulong (z : Z) : Z := z mod ULONG_MOD.

Definition is_ulong (z : Z) : Prop := 0 <= z <= ULONG_MAX.
Definition is_u32 (z : Z) : Prop := 0 <= z < U32_MOD.

Definition NULL : Z := 0.

(** errno values of the kernel ABI used by the handlers. *)
Definition EFAULT : Z := 14.
Definition EINVAL : Z := 22.

End Mach.
Import Mach.

(** ** vm.h: data model *)

Module Vm.

(** [struct local_memory]; the [unused] field carries no behaviour. *)
Record local_memory : Type := mk_local_memory {
  base : Z;      (* uint8_t *base *)
  bound : Z;     (* size_t bound  *)
  unused : Z
}.

(** [struct vmctx]: every field is an address. *)
Record vmctx : Type := mk_vmctx {
  memories : Z;            (* struct local_memory **  *)
  tables : Z;
  globals : Z;
  imported_memories : Z;
  imported_tables : Z;
  imported_globals : Z;
  imported_funcs : Z;
  dynamic_sigindices : Z;
  intrinsics : Z;
  stack_lower_bound : Z
}.

(** The part of kernel memory that [vmctx_get_memory_slice] reads: the cells
    holding a [struct local_memory *] and the [struct local_memory] objects,
    both keyed by address.  An address absent from a map is not a valid
    object of that type, so reading it has no defined result. *)
Record heap : Type := mk_heap {
  ptr_cells : gmap Z Z;
  mem_cells : gmap Z local_memory
}.

(** [round_up_to_page_size] (vm.h:90-92):  [(x + 4095ul) & (~4095ul)]. *)
Definition round_up_to_page_size (x : Z) : Z :=
  Z.land (to_ulong (x + 4095)) (to_ulong (Z.lnot 4095)).

(** [vmctx_get_memory_slice] (vm.h:94-108).  [None] stands for a read
    through an address that holds no object (undefined behaviour);
    [Some NULL] is the null result; [Some p] the returned pointer
    otherwise. *)
Definition vmctx_get_memory_slice
    (h : heap) (ctx : vmctx) (offset len : Z) : option Z :=
  if memories ctx =? NULL then Some NULL
  else
    match ptr_cells h !! memories ctx with
    | None => None
    | Some memp =>
      match mem_cells h !! memp with
      | None => None
      | Some mem =>
        let begin := to_ulong (base mem + offset) in
        let end_ := to_ulong (begin + len) in
        let real_end := to_ulong (base mem + bound mem) in
        if (end_ <? begin) || (begin <? base mem)
           || (real_end <=? begin) || (real_end <? end_)
        then Some NULL
        else Some begin
      end
    end.

(** The function body once the two reads have gone through. *)
Definition slice_checks (mem : local_memory) (offset len : Z) : option Z :=
  let begin := to_ulong (base mem + offset) in
  let end_ := to_ulong (begin + len) in
  let real_end := to_ulong (base mem + bound mem) in
  if (end_ <? begin) || (begin <? base mem)
     || (real_end <=? begin) || (real_end <? end_)
  then Some NULL
  else Some begin.

(** The slice operation succeeds when it returns a pointer that is not
    null. *)
Definition slice_succeeds (h : heap) (ctx : vmctx) (offset len : Z) : Prop :=
  exists p, vmctx_get_memory_slice h ctx offset len = Some p /\ p <> NULL.

(** The precondition under which the slice operation is used: the context's
    memory list is non-null and leads to a [local_memory] whose base is a
    real (non-null) address and whose region [base, base + bound) fits the
    address space. *)
Record valid_memory (h : heap) (ctx : vmctx) (mem : local_memory) : Prop := {
  vm_nonnull : memories ctx <> NULL;
  vm_cell : exists memp,
      ptr_cells h !! memories ctx = Some memp /\ mem_cells h !! memp = Some mem;
  vm_base : 0 < base mem;
  vm_bound : 0 <= bound mem;
  vm_fits : base mem + bound mem <= ULONG_MAX
}.

(** A concrete context used in the examples: one page-aligned region of 16
    bytes at address 4096, reached through the pointer cell at 64. *)
Definition ex_mem : local_memory := mk_local_memory 4096 16 0.
Definition ex_heap : heap := mk_heap {[ 64 := 128 ]} {[ 128 := ex_mem ]}.
Definition ex_ctx : vmctx := mk_vmctx 64 0 0 0 0 0 0 0 0 0.
Definition null_ctx : vmctx := mk_vmctx 0 0 0 0 0 0 0 0 0 0.

End Vm.
Import Vm.

(** ** Sessions and the load command *)

Module Session.

(** [struct anyfunc] and [struct local_table] (addresses and counts). *)
Record local_table : Type := mk_local_table {
  table_base : Z;
  table_count : Z;
  table_unused : Z
}.

(** [struct vm_intrinsics]. *)
Record vm_intrinsics : Type := mk_vm_intrinsics {
  memory_grow : Z;
  memory_size : Z
}.

Section WithExternalTypes.

(** [struct module_resolver] is declared in kapi.h and [struct
    load_code_request] in request.h; the handlers only pass them along, so
    both are kept abstract. *)
Variable module_resolver : Type.
Variable load_code_request : Type.

(** [struct execution_engine]. *)
Record execution_engine : Type := mk_execution_engine {
  ctx : vmctx;
  local_memory_backing : local_memory;
  local_memory_ptr_backing : Z;
  local_table_backing : local_table;
  local_table_ptr_backing : Z;
  intrinsics_backing : vm_intrinsics;
  resolver : module_resolver;
  local_global_backing : Z;
  local_global_ptr_backing : Z;
  code : Z;
  code_len : Z;
  stack_begin : Z;
  stack_end : Z;
  stack_backing : Z
}.

(** [struct privileged_session]; [ready] is a C [int]. *)
Record privileged_session : Type := mk_privileged_session {
  ready : Z;
  ee : execution_engine
}.

(** [init_privileged_session]: only [ready] is written. *)
Definition init_privileged_session (sess : privileged_session)
  : privileged_session :=
  mk_privileged_session 0 (ee sess).

(** [copy_from_user(&req, arg, sizeof req)] seen from the handler: the user
    address either yields a request or the copy reports uncopied bytes. *)
Variable copy_load_request : Z -> option load_code_request.

(** [init_execution_engine] is only declared in vm.h.  It receives the
    request and a pointer to the session's engine, so it may write the
    engine whether or not it succeeds, and it returns an [int]. *)
Variable init_execution_engine :
  load_code_request -> execution_engine -> Z * execution_engine.

(** [handle_wasm_load_code] (lines 124-156 of the command handlers): the
    value returned to the ioctl caller and the session afterwards. *)
Definition handle_wasm_load_code (sess : privileged_session) (arg : Z)
  : Z * privileged_session :=
  if negb (ready sess =? 0) then (- EINVAL, sess)
  else
    match copy_load_request arg with
    | None => (- EFAULT, sess)
    | Some req =>
      let '(err, ee') := init_execution_engine req (ee sess) in
      if err <? 0 then (err, mk_privileged_session (ready sess) ee')
      else (0, mk_privileged_session 1 ee')
    end.

(** A load on [sess] gets through the request copy and the engine
    initialisation reports success (a non-negative [int]). *)
Definition init_succeeds (sess : privileged_session) (arg : Z) : Prop :=
  exists req, copy_load_request arg = Some req /\
              0 <= fst (init_execution_engine req (ee sess)).

(** A load on [sess] fails: the request copy fails, or the engine
    initialisation reports a negative [int]. *)
Definition load_fails (sess : privileged_session) (arg : Z) : Prop :=
  copy_load_request arg = None \/
  exists req, copy_load_request arg = Some req /\
              fst (init_execution_engine req (ee sess)) < 0.

End WithExternalTypes.

Arguments mk_execution_engine {module_resolver}.
Arguments ctx {module_resolver}.
Arguments code {module_resolver}.
Arguments code_len {module_resolver}.
Arguments mk_privileged_session {module_resolver}.
Arguments ready {module_resolver}.
Arguments ee {module_resolver}.
Arguments init_privileged_session {module_resolver}.
Arguments handle_wasm_load_code {module_resolver load_code_request}.
Arguments init_succeeds {module_resolver load_code_request}.
Arguments load_fails {module_resolver load_code_request}.

(** An engine and the external functions used in the examples: a load
    request is represented by its code length; the copy fails at the null
    user address; the initialisation accepts code up to [MAX_CODE_SIZE]. *)
Definition MAX_CODE_SIZE : Z := 1048576 * 8.

Definition ex_engine : execution_engine unit :=
  mk_execution_engine ex_ctx ex_mem 128 (mk_local_table 0 0 0) 0
    (mk_vm_intrinsics 0 0) tt 0 0 8192 4096 0 0 0.

Definition ex_copy_load (arg : Z) : option Z :=
  if arg =? 0 then None else Some arg.

Definition ex_init (len : Z) (e : execution_engine unit)
  : Z * execution_engine unit :=
  if len <=? MAX_CODE_SIZE
  then (0, mk_execution_engine (ctx e) (local_memory_backing _ e)
             (local_memory_ptr_backing _ e) (local_table_backing _ e)
             (local_table_ptr_backing _ e) (intrinsics_backing _ e) tt
             (local_global_backing _ e) (local_global_ptr_backing _ e)
             (code e) len (stack_begin _ e) (stack_end _ e)
             (stack_backing _ e))
  else (- EINVAL, e).

Definition ex_ready_session : privileged_session unit :=
  mk_privileged_session 1 ex_engine.

Definition ex_fresh_session : privileged_session unit :=
  init_privileged_session (mk_privileged_session 7 ex_engine).

End Session.
Import Session.

(** ** The run command: controller, worker and their handshake *)

(** [handle_wasm_run_code] (the controller) and [code_runner] running
    [code_runner_inner] (the worker thread) are two sequential programs that
    share the task's semaphore, its result slot and the page protection of
    the code buffer.  Each is a step function on a common state, and a run
    is any interleaving of their steps and of signal deliveries.

    The kernel primitives are taken with their documented behaviour:
    - [up] adds one to the count; [down] sleeps until it can take one and
      is not woken by signals; [down_interruptible] takes one when the count
      is positive and otherwise sleeps until a release or a signal, which
      makes it return [-EINTR]; [down_trylock] returns 0 exactly when it
      took one;
    - [kthread_stop] returns once the thread has exited, with the thread
      function's result;
    - [set_memory_nx] and [set_memory_x] change the execute permission of
      the pages they name, [numpages] pages from the page of [addr] on, at
      once; each may fail, its result is ignored by the callers, and a
      failing call changes nothing; a thread that fetches an instruction
      from the code buffer while one of its pages is not executable is
      killed by the fault;
    - the coroutine never yields, so [start_coroutine] runs
      [code_runner_inner] to its end and [code_runner] then returns 0. *)

Module Run.

(** [struct run_code_request] is declared in request.h; these are the two
    fields the handlers read. *)
Record run_code_request : Type := mk_run_code_request {
  entry_offset : Z;
  param_count : Z
}.

(** What happens during one run, as observed in order. *)
Inductive event : Type :=
| EvStarted                       (* first  up(&task->sem)               *)
| EvInvalidParam                  (* printk "invalid param count"         *)
| EvCall (offset : Z)             (* ee_call0(task->ee, offset) entered   *)
| EvStore (v : Z)                 (* the call returned v; task->ret = v   *)
| EvFinished                      (* second up(&task->sem)               *)
| EvFault                         (* the thread dies of a fault in ee_call0 *)
| EvSetMemoryNX (addr pages : Z)  (* set_memory_nx(addr, pages)           *)
| EvSetMemoryX (addr pages : Z)   (* set_memory_x(addr, pages)            *)
| EvLogBad (ret : Z)              (* printk "bad result from runner ..."  *)
| EvLogResult (ret : option Z)    (* printk "result = %llu", task.ret     *)
| EvLogNoRunner.                  (* printk "Unable to start code runner" *)

(** Program points of [handle_wasm_run_code] (the controller). *)
Inductive ctl_pc : Type :=
| C_copy                 (* copy_from_user                               *)
| C_ready                (* if(!sess->ready)                             *)
| C_init                 (* task.ee, task.req, sema_init(&task.sem, 0)   *)
| C_create               (* kthread_create                               *)
| C_wake                 (* get_task_struct; wake_up_process             *)
| C_down                 (* down(&task.sem)                              *)
| C_down_interruptible   (* down_interruptible(&task.sem)                *)
| C_make_nx              (* ee_make_code_nx; made_nx = 1                 *)
| C_stop                 (* kthread_stop                                 *)
| C_log (ret : Z)        (* the two printk after kthread_stop            *)
| C_drain                (* put_task_struct; while(down_trylock == 0);   *)
| C_restore              (* if(made_nx) ee_make_code_x                   *)
| C_returned (r : Z).    (* the handler has returned r                   *)

(** Program points of the worker thread: [code_runner] running
    [code_runner_inner] as a coroutine that never yields. *)
Inductive wrk_pc : Type :=
| W_none           (* no thread                                          *)
| W_created        (* created by kthread_create, not yet woken           *)
| W_entry          (* at the first up(&task->sem)                        *)
| W_check          (* at if(task->req->param_count != 0)                 *)
| W_call           (* inside ee_call0                                    *)
| W_finish         (* at the second up(&task->sem)                       *)
| W_exit_invalid   (* thread function returned after the printk branch   *)
| W_exit_done      (* thread function returned after the second up       *)
| W_killed.        (* killed by a fault inside ee_call0                  *)

Definition exited (w : wrk_pc) : bool :=
  match w with
  | W_exit_invalid | W_exit_done | W_killed => true
  | _ => false
  end.

(** The shared state.  [sem] is [None] until [sema_init]; [task_ret] is
    [None] while [task.ret] has not been written; [nx_pages] is the set of
    pages (page numbers, address / 4096) without execute permission;
    [trace] has the newest event first. *)
Record state : Type := mk_state {
  cpc : ctl_pc;
  wpc : wrk_pc;
  req : option run_code_request;
  sem : option nat;
  task_ret : option Z;
  made_nx : bool;
  nx_pages : gset Z;
  trace : list event
}.

Definition history (s : state) : list event := rev (trace s).

Definition goto (pc : ctl_pc) (s : state) : state :=
  mk_state pc (wpc s) (req s) (sem s) (task_ret s) (made_nx s) (nx_pages s)
           (trace s).

Definition wgoto (pc : wrk_pc) (s : state) : state :=
  mk_state (cpc s) pc (req s) (sem s) (task_ret s) (made_nx s) (nx_pages s)
           (trace s).

Definition set_req (r : run_code_request) (s : state) : state :=
  mk_state (cpc s) (wpc s) (Some r) (sem s) (task_ret s) (made_nx s)
           (nx_pages s) (trace s).

Definition set_sem (n : nat) (s : state) : state :=
  mk_state (cpc s) (wpc s) (req s) (Some n) (task_ret s) (made_nx s)
           (nx_pages s) (trace s).

Definition set_ret (v : Z) (s : state) : state :=
  mk_state (cpc s) (wpc s) (req s) (sem s) (Some v) (made_nx s) (nx_pages s)
           (trace s).

Definition set_made_nx (s : state) : state :=
  mk_state (cpc s) (wpc s) (req s) (sem s) (task_ret s) true (nx_pages s)
           (trace s).

Definition set_nx_pages (ps : gset Z) (s : state) : state :=
  mk_state (cpc s) (wpc s) (req s) (sem s) (task_ret s) (made_nx s) ps
           (trace s).

Definition emit (e : event) (s : state) : state :=
  mk_state (cpc s) (wpc s) (req s) (sem s) (task_ret s) (made_nx s)
           (nx_pages s) (e :: trace s).

(** Semaphore primitives of the kernel on the count: [up] adds one;
    [down] and a successful [down_trylock] take one and need a positive
    count. *)
Definition sem_up (s : state) : option state :=
  match sem s with
  | Some n => Some (set_sem (S n) s)
  | None => None
  end.

Definition sem_take (s : state) : option state :=
  match sem s with
  | Some (S n) => Some (set_sem n s)
  | _ => None
  end.

(** The pages a call of [set_memory_nx] or [set_memory_x] names: [pages]
    pages from the page that holds [addr] on. *)
Definition page_range (addr pages : Z) : gset Z :=
  list_to_set (seqZ (addr / 4096) pages).

(** The pages without execute permission after a call that takes it from
    the pages [range], or gives it to them; [ok] tells whether the call
    succeeds. *)
Definition revoke_x (ok : bool) (nx range : gset Z) : gset Z :=
  if ok then nx ∪ range else nx.

Definition grant_x (ok : bool) (nx range : gset Z) : gset Z :=
  if ok then nx ∖ range else nx.

(** [set_memory_nx(addr, pages)] and [set_memory_x(addr, pages)] of the
    kernel. *)
Definition set_memory_nx (ok : bool) (addr pages : Z) (s : state) : state :=
  emit (EvSetMemoryNX addr pages)
    (set_nx_pages (revoke_x ok (nx_pages s) (page_range addr pages)) s).

Definition set_memory_x (ok : bool) (addr pages : Z) (s : state) : state :=
  emit (EvSetMemoryX addr pages)
    (set_nx_pages (grant_x ok (nx_pages s) (page_range addr pages)) s).

Arguments page_range : simpl never.
Arguments revoke_x : simpl never.
Arguments grant_x : simpl never.

(** Event classes. *)
Definition is_worker_event (ev : event) : bool :=
  match ev with
  | EvStarted | EvInvalidParam | EvCall _ | EvStore _ | EvFinished
  | EvFault => true
  | _ => false
  end.

Definition is_protection_event (ev : event) : bool :=
  match ev with
  | EvSetMemoryNX _ _ | EvSetMemoryX _ _ => true
  | _ => false
  end.

Section Machine.

Variable module_resolver : Type.

(** [ee_call0] is only declared in vm.h: on an engine and an entry offset
    it either returns a 64-bit value ([Some v]) or does not return on its
    own ([None]): the entry code runs on until it is stopped, or it traps. *)
Variable ee_call0 : execution_engine module_resolver -> Z -> option Z.

(** [ee_make_code_nx] and [ee_make_code_x] (vm.h): the one kernel call each
    of them makes, with the address of the code and the page count computed
    from its length. *)
Definition ee_code_pages (eng : execution_engine module_resolver) : Z :=
  round_up_to_page_size (code_len eng) / 4096.

Definition ee_make_code_nx (ok : bool)
    (eng : execution_engine module_resolver) (s : state) : state :=
  set_memory_nx ok (code eng) (ee_code_pages eng) s.

Definition ee_make_code_x (ok : bool)
    (eng : execution_engine module_resolver) (s : state) : state :=
  set_memory_x ok (code eng) (ee_code_pages eng) s.

(** The pages the code buffer lies in: those that hold one of the bytes
    [code .. code + code_len - 1]. *)
Definition buffer_pages (eng : execution_engine module_resolver) : gset Z :=
  if code_len eng <=? 0 then ∅
  else list_to_set
         (seqZ (code eng / 4096)
               ((code eng + code_len eng - 1) / 4096 - code eng / 4096 + 1)).

(** What one run receives from outside the two functions. *)
Record env : Type := mk_env {
  sess : privileged_session module_resolver;  (* f->private_data          *)
  user_req : option run_code_request;  (* copy_from_user: None = fault  *)
  kthread_ok : bool;                   (* kthread_create succeeded      *)
  nx_pages0 : gset Z;                  (* pages not executable on entry *)
  set_memory_nx_ok : bool;             (* set_memory_nx succeeds        *)
  set_memory_x_ok : bool;              (* set_memory_x succeeds         *)
  killed_result : Z                    (* kthread_stop on a killed thread *)
}.

(** The code buffer is executable when each of its pages is. *)
Definition code_executable (e : env) (s : state) : bool :=
  bool_decide (buffer_pages (ee (sess e)) ## nx_pages s).

(** The code buffer is executable on entry. *)
Definition code_x0 (e : env) : bool :=
  bool_decide (buffer_pages (ee (sess e)) ## nx_pages0 e).

Definition init_state (e : env) : state :=
  mk_state C_copy W_none None None None false (nx_pages0 e) [].

(** One step of [handle_wasm_run_code] (lines 192-241 of the command
    handlers).  [None]: the controller cannot move (it is blocked, or it has
    returned). *)
Definition handle_wasm_run_code_step (e : env) (s : state) : option state :=
  match cpc s with
  | C_copy =>
    match user_req e with
    | None => Some (goto (C_returned (- EFAULT)) s)
    | Some r => Some (goto C_ready (set_req r s))
    end
  | C_ready =>
    if ready (sess e) =? 0 then Some (goto (C_returned (- EINVAL)) s)
    else Some (goto C_init s)
  | C_init => Some (goto C_create (set_sem 0 s))
  | C_create =>
    if kthread_ok e then Some (goto C_wake (wgoto W_created s))
    else Some (goto (C_returned (- EINVAL)) (emit EvLogNoRunner s))
  | C_wake =>
    match wpc s with
    | W_created => Some (goto C_down (wgoto W_entry s))
    | _ => None
    end
  | C_down =>
    match sem_take s with
    | Some s' => Some (goto C_down_interruptible s')
    | None => None
    end
  | C_down_interruptible =>
    match sem_take s with
    | Some s' => Some (goto C_stop s')
    | None => None
    end
  | C_make_nx =>
    Some (goto C_stop
            (set_made_nx
               (ee_make_code_nx (set_memory_nx_ok e) (ee (sess e)) s)))
  | C_stop =>
    match wpc s with
    | W_exit_invalid | W_exit_done => Some (goto (C_log 0) s)
    | W_killed => Some (goto (C_log (killed_result e)) s)
    | _ => None
    end
  | C_log ret =>
    if negb (ret =? 0) then Some (goto C_drain (emit (EvLogBad ret) s))
    else Some (goto C_drain (emit (EvLogResult (task_ret s)) s))
  | C_drain =>
    match sem s with
    | Some (S n) => Some (set_sem n s)
    | Some O => Some (goto C_restore s)
    | None => None
    end
  | C_restore =>
    if made_nx s
    then Some (goto (C_returned 0)
                 (ee_make_code_x (set_memory_x_ok e) (ee (sess e)) s))
    else Some (goto (C_returned 0) s)
  | C_returned _ => None
  end.

(** A signal reaches the controller.  Only [down_interruptible] reacts, and
    only while it sleeps on an empty semaphore; it then returns [-EINTR]. *)
Definition signal_step (s : state) : option state :=
  match cpc s, sem s with
  | C_down_interruptible, Some O => Some (goto C_make_nx s)
  | _, _ => None
  end.

(** One step of the worker, [code_runner_inner] (lines 165-174) under
    [code_runner] (lines 176-190).  Inside [ee_call0] the thread executes
    the code buffer: it faults when the buffer is not executable, returns
    when the entry function returns, and otherwise keeps running. *)
Definition code_runner_inner_step (e : env) (s : state) : option state :=
  match wpc s with
  | W_entry =>
    match sem_up s with
    | Some s' => Some (wgoto W_check (emit EvStarted s'))
    | None => None
    end
  | W_check =>
    match req s with
    | Some r =>
      if negb (param_count r =? 0)
      then Some (wgoto W_exit_invalid (emit EvInvalidParam s))
      else Some (wgoto W_call (emit (EvCall (entry_offset r)) s))
    | None => None
    end
  | W_call =>
    if code_executable e s then
      match req s with
      | Some r =>
        match ee_call0 (ee (sess e)) (entry_offset r) with
        | Some v => Some (wgoto W_finish (emit (EvStore v) (set_ret v s)))
        | None => Some s
        end
      | None => None
      end
    else Some (wgoto W_killed (emit EvFault s))
  | W_finish =>
    match sem_up s with
    | Some s' => Some (wgoto W_exit_done (emit EvFinished s'))
    | None => None
    end
  | _ => None
  end.

(** The entry code stops by itself: a trap of the entry code (an access
    outside its memory, a stack overflow into the guard pages) is a fault
    in kernel mode that kills the thread.  Only an entry function that does
    not return can end this way. *)
Definition entry_trap_step (e : env) (s : state) : option state :=
  match wpc s with
  | W_call =>
    match req s with
    | Some r =>
      match ee_call0 (ee (sess e)) (entry_offset r) with
      | Some _ => None
      | None => Some (wgoto W_killed (emit EvFault s))
      end
    | None => None
    end
  | _ => None
  end.

(** Who moves next: the controller, the worker, a signal that reaches the
    controller, or a trap of the entry code. *)
Inductive label : Type := Ctl | Wrk | Sig | Trap.

Definition step (e : env) (l : label) (s : state) : option state :=
  match l with
  | Ctl => handle_wasm_run_code_step e s
  | Wrk => code_runner_inner_step e s
  | Sig => signal_step s
  | Trap => entry_trap_step e s
  end.

(** A schedule is run from a state; [None] when some move in it is not
    possible. *)
Fixpoint exec (e : env) (ls : list label) (s : state) : option state :=
  match ls with
  | [] => Some s
  | l :: ls' =>
    match step e l s with
    | Some s' => exec e ls' s'
    | None => None
    end
  end.

Definition run (e : env) (ls : list label) : option state :=
  exec e ls (init_state e).

(** The value [handle_wasm_run_code] has returned to its caller, if it has. *)
Definition returned (s : state) : option Z :=
  match cpc s with
  | C_returned r => Some r
  | _ => None
  end.

Definition run_outcome (e : env) (ls : list label) : option Z :=
  match run e ls with
  | Some s => returned s
  | None => None
  end.

(** *** The invariant of the handshake *)

(** Releases of the semaphore the worker has performed at each point. *)
Definition ups (w : wrk_pc) : nat :=
  match w with
  | W_none | W_created | W_entry => 0
  | W_exit_done => 2
  | _ => 1
  end.

Definition worker_trace (s : state) : list event :=
  List.filter is_worker_event (trace s).

Definition protection_trace (s : state) : list event :=
  List.filter is_protection_event (trace s).

(** The cleanup phase is over: the drain loop has been left. *)
Definition cleaned_up (s : state) : Prop :=
  cpc s = C_restore \/ (exists r, cpc s = C_returned r /\ wpc s <> W_none).

(** The handler gave up before creating the worker: where and why. *)
Definition early_return (e : env) (r : Z) : Prop :=
  (r = - EFAULT /\ user_req e = None) \/
  (r = - EINVAL /\ user_req e <> None /\ ready (sess e) = 0) \/
  (r = - EINVAL /\ user_req e <> None /\ ready (sess e) <> 0 /\
   kthread_ok e = false).

(** Once the thread has been reaped: it has exited, an uninterrupted wait
    means it ran to its end, and the result slot has been logged then. *)
Definition reaped (s : state) : Prop :=
  exited (wpc s) = true /\
  (made_nx s = false -> wpc s = W_exit_done) /\
  (wpc s = W_exit_done -> In (EvLogResult (task_ret s)) (trace s)).

(** Controller side: what holds at each program point. *)
Definition ctl_inv (e : env) (s : state) : Prop :=
  match cpc s with
  | C_copy =>
    wpc s = W_none /\ sem s = None /\ made_nx s = false /\ req s = None
  | C_ready =>
    wpc s = W_none /\ sem s = None /\ made_nx s = false /\
    user_req e <> None
  | C_init =>
    wpc s = W_none /\ sem s = None /\ made_nx s = false /\
    user_req e <> None /\ ready (sess e) <> 0
  | C_create =>
    wpc s = W_none /\ sem s = Some O /\ made_nx s = false /\
    user_req e <> None /\ ready (sess e) <> 0
  | C_wake => wpc s = W_created /\ sem s = Some O /\ made_nx s = false
  | C_down =>
    wpc s <> W_none /\ wpc s <> W_created /\
    sem s = Some (ups (wpc s)) /\ made_nx s = false
  | C_down_interruptible | C_make_nx =>
    (exists n, sem s = Some n /\ S n = ups (wpc s)) /\ made_nx s = false
  | C_stop =>
    if made_nx s
    then exists n, sem s = Some n /\ S n = ups (wpc s)
    else wpc s = W_exit_done /\ sem s = Some O
  | C_log ret =>
    exited (wpc s) = true /\ (exists n, sem s = Some n) /\
    (made_nx s = false -> wpc s = W_exit_done) /\
    (wpc s = W_exit_done -> ret = 0)
  | C_drain => reaped s /\ exists n, sem s = Some n
  | C_restore => reaped s /\ sem s = Some O
  | C_returned r =>
    (wpc s = W_none /\ early_return e r /\ made_nx s = false /\
     (sem s = None \/ sem s = Some O)) \/
    (reaped s /\ sem s = Some O /\ r = 0)
  end.

(** Worker side: the events of the task body so far (newest first) and the
    result slot, at each program point. *)
Definition wrk_inv (e : env) (s : state) : Prop :=
  match wpc s with
  | W_none | W_created | W_entry =>
    worker_trace s = [] /\ task_ret s = None
  | W_check => worker_trace s = [EvStarted] /\ task_ret s = None
  | W_call =>
    exists r, req s = Some r /\ param_count r = 0 /\ task_ret s = None /\
      worker_trace s = [EvCall (entry_offset r); EvStarted]
  | W_finish =>
    exists r v, req s = Some r /\ param_count r = 0 /\
      ee_call0 (ee (sess e)) (entry_offset r) = Some v /\
      task_ret s = Some v /\
      worker_trace s = [EvStore v; EvCall (entry_offset r); EvStarted]
  | W_exit_done =>
    exists r v, req s = Some r /\ param_count r = 0 /\
      ee_call0 (ee (sess e)) (entry_offset r) = Some v /\
      task_ret s = Some v /\
      worker_trace s =
        [EvFinished; EvStore v; EvCall (entry_offset r); EvStarted]
  | W_exit_invalid =>
    exists r, req s = Some r /\ param_count r <> 0 /\ task_ret s = None /\
      worker_trace s = [EvInvalidParam; EvStarted]
  | W_killed =>
    exists r, req s = Some r /\ param_count r = 0 /\ task_ret s = None /\
      worker_trace s = [EvFault; EvCall (entry_offset r); EvStarted]
  end.

(** The pages without execute permission after the call of
    [set_memory_nx] on the pages of the code, and after the call of
    [set_memory_x] on them that follows. *)
Definition nx_pages_revoked (e : env) : gset Z :=
  revoke_x (set_memory_nx_ok e) (nx_pages0 e)
    (page_range (code (ee (sess e))) (ee_code_pages (ee (sess e)))).

Definition nx_pages_restored (e : env) : gset Z :=
  grant_x (set_memory_x_ok e) (nx_pages_revoked e)
    (page_range (code (ee (sess e))) (ee_code_pages (ee (sess e)))).

(** Page protection against the local [made_nx]: the kernel calls made so
    far and the pages they left without execute permission. *)
Definition prot_inv (e : env) (s : state) : Prop :=
  if made_nx s then
    match cpc s with
    | C_returned _ =>
      nx_pages s = nx_pages_restored e /\
      protection_trace s =
        [EvSetMemoryX (code (ee (sess e))) (ee_code_pages (ee (sess e)));
         EvSetMemoryNX (code (ee (sess e))) (ee_code_pages (ee (sess e)))]
    | _ =>
      nx_pages s = nx_pages_revoked e /\
      protection_trace s =
        [EvSetMemoryNX (code (ee (sess e))) (ee_code_pages (ee (sess e)))]
    end
  else nx_pages s = nx_pages0 e /\ protection_trace s = [].

(** A measure of the work left: program points of the controller count
    most, then those of the worker, then the releases still to drain. *)
Definition ctl_rank (c : ctl_pc) : nat :=
  match c with
  | C_copy => 12 | C_ready => 11 | C_init => 10 | C_create => 9
  | C_wake => 8 | C_down => 7 | C_down_interruptible => 6
  | C_make_nx => 5 | C_stop => 4 | C_log _ => 3 | C_drain => 2
  | C_restore => 1 | C_returned _ => 0
  end.

Definition wrk_rank (w : wrk_pc) : nat :=
  match w with
  | W_entry => 4 | W_check => 3 | W_call => 2 | W_finish => 1
  | _ => 0
  end.

Definition rank (s : state) : nat :=
  16 * ctl_rank (cpc s) + 2 * wrk_rank (wpc s)
  + match sem s with Some n => n | None => 0 end.

(** The events of the task body, oldest first, are one of seven shapes. *)
Inductive worker_shape (e : env) (s : state)
  : list event -> Prop :=
| shape_idle : task_ret s = None -> worker_shape e s []
| shape_started : task_ret s = None -> worker_shape e s [EvStarted]
| shape_invalid rq :
    user_req e = Some rq -> param_count rq <> 0 -> task_ret s = None ->
    worker_shape e s [EvStarted; EvInvalidParam]
| shape_call rq :
    user_req e = Some rq -> param_count rq = 0 -> task_ret s = None ->
    worker_shape e s [EvStarted; EvCall (entry_offset rq)]
| shape_fault rq :
    user_req e = Some rq -> param_count rq = 0 -> task_ret s = None ->
    worker_shape e s [EvStarted; EvCall (entry_offset rq); EvFault]
| shape_stored rq v :
    user_req e = Some rq -> param_count rq = 0 ->
    ee_call0 (ee (sess e)) (entry_offset rq) = Some v ->
    task_ret s = Some v -> wpc s = W_finish ->
    worker_shape e s [EvStarted; EvCall (entry_offset rq); EvStore v]
| shape_finished rq v :
    user_req e = Some rq -> param_count rq = 0 ->
    ee_call0 (ee (sess e)) (entry_offset rq) = Some v ->
    task_ret s = Some v -> wpc s = W_exit_done ->
    worker_shape e s
      [EvStarted; EvCall (entry_offset rq); EvStore v; EvFinished].

Record Inv (e : env) (s : state) : Prop := mk_Inv {
  inv_req : cpc s <> C_copy -> req s = user_req e;
  inv_env : wpc s <> W_none ->
            ready (sess e) <> 0 /\ kthread_ok e = true /\ user_req e <> None;
  inv_ctl : ctl_inv e s;
  inv_wrk : wrk_inv e s;
  inv_prot : prot_inv e s
}.

End Machine.

Arguments mk_env {module_resolver}.
Arguments sess {module_resolver}.
Arguments user_req {module_resolver}.
Arguments kthread_ok {module_resolver}.
Arguments nx_pages0 {module_resolver}.
Arguments set_memory_nx_ok {module_resolver}.
Arguments set_memory_x_ok {module_resolver}.
Arguments buffer_pages {module_resolver} : simpl never.
Arguments code_executable {module_resolver} : simpl never.
Arguments code_x0 {module_resolver} : simpl never.
Arguments nx_pages_revoked {module_resolver} : simpl never.
Arguments nx_pages_restored {module_resolver} : simpl never.
Arguments killed_result {module_resolver}.
Arguments ee_code_pages {module_resolver} : simpl never.
Arguments ee_make_code_nx {module_resolver}.
Arguments ee_make_code_x {module_resolver}.
Arguments init_state {module_resolver}.
Arguments handle_wasm_run_code_step {module_resolver}.
Arguments code_runner_inner_step {module_resolver}.
Arguments entry_trap_step {module_resolver}.
Arguments step {module_resolver}.
Arguments exec {module_resolver}.
Arguments run {module_resolver}.
Arguments run_outcome {module_resolver}.
Arguments early_return {module_resolver}.
Arguments ctl_inv {module_resolver}.
Arguments wrk_inv {module_resolver}.
Arguments prot_inv {module_resolver}.
Arguments Inv {module_resolver}.
Arguments worker_shape {module_resolver}.

(** [before a b h]: in the chronological list [h], an occurrence of [a]
    comes strictly earlier than an occurrence of [b]. *)
Definition before (a b : event) (h : list event) : Prop :=
  exists l1 l2 l3, h = l1 ++ a :: l2 ++ b :: l3.

(** Concrete runs used in the examples: a session that is ready, whose
    engine returns 42 from offset 0, 7 from offset 8 and loops at any other
    offset. *)
Definition ex_call0 (_ : execution_engine unit) (offset : Z) : option Z :=
  if offset =? 0 then Some 42
  else if offset =? 8 then Some 7
  else None.

Definition ex_env (entry params : Z) : env unit :=
  mk_env (mk_privileged_session 1 ex_engine)
         (Some (mk_run_code_request entry params)) true ∅ true true 11.

(** The controller up to its first wait, then the worker to completion, then
    the controller to its return. *)
Definition sched_normal : list label :=
  [Ctl; Ctl; Ctl; Ctl; Ctl; Wrk; Wrk; Wrk; Wrk;
   Ctl; Ctl; Ctl; Ctl; Ctl; Ctl].

(** The worker is still inside the call when a signal interrupts the wait. *)
Definition sched_forced : list label :=
  [Ctl; Ctl; Ctl; Ctl; Ctl; Wrk; Wrk; Ctl; Wrk; Wrk; Sig;
   Ctl; Wrk; Ctl; Ctl; Ctl; Ctl].

(** The call has returned but the second [up] has not happened when the
    signal arrives; the [up] lands during forced termination. *)
Definition sched_race : list label :=
  [Ctl; Ctl; Ctl; Ctl; Ctl; Wrk; Wrk; Ctl; Wrk; Sig;
   Ctl; Wrk; Ctl; Ctl; Ctl; Ctl; Ctl].

(** A request with a nonzero parameter count: the worker stops after the
    first [up], and only a signal lets the controller go on. *)
Definition sched_invalid : list label :=
  [Ctl; Ctl; Ctl; Ctl; Ctl; Wrk; Wrk; Ctl; Sig;
   Ctl; Ctl; Ctl; Ctl; Ctl].

(** The states these four schedules end in. *)
Definition final_normal : state :=
  mk_state (C_returned 0) W_exit_done (Some (mk_run_code_request 0 0))
    (Some O) (Some 42) false ∅
    [EvLogResult (Some 42); EvFinished; EvStore 42; EvCall 0; EvStarted].

Definition final_forced : state :=
  mk_state (C_returned 0) W_killed (Some (mk_run_code_request 16 0))
    (Some O) None true ∅
    [EvSetMemoryX 8192 1; EvLogBad 11; EvFault; EvSetMemoryNX 8192 1;
     EvCall 16; EvStarted].

Definition final_race : state :=
  mk_state (C_returned 0) W_exit_done (Some (mk_run_code_request 0 0))
    (Some O) (Some 42) true ∅
    [EvSetMemoryX 8192 1; EvLogResult (Some 42); EvFinished;
     EvSetMemoryNX 8192 1; EvStore 42; EvCall 0; EvStarted].

Definition final_invalid : state :=
  mk_state (C_returned 0) W_exit_invalid (Some (mk_run_code_request 0 1))
    (Some O) None true ∅
    [EvSetMemoryX 8192 1; EvLogResult None; EvSetMemoryNX 8192 1;
     EvInvalidParam; EvStarted].

End Run.
Import Run.

(** A region whose end lies beyond the address space: 4096 bytes starting
    16 bytes below the top. *)
Definition ex_mem_wrapping : local_memory :=
  mk_local_memory (ULONG_MOD - 16) 4096 0.
Definition ex_heap_wrapping : heap :=
  mk_heap {[ 64 := 128 ]} {[ 128 := ex_mem_wrapping ]}.

(** ** Registration of the control device *)

(** [uapi_init] and [uapi_cleanup] (lines 47-90 of the command handlers)
    work on four file-level variables and on kernel objects.  The kernel's
    answers are inputs; the calls made are returned in order.  [IS_ERR],
    [PTR_ERR] and [MKDEV] are the kernel's macros (linux/err.h,
    linux/kdev_t.h). *)

Module Uapi.

Definition MAX_ERRNO : Z := 4095.
Definition MINORBITS : Z := 20.

(** [IS_ERR(p)]: the pointer lies in the last [MAX_ERRNO] addresses. *)
Definition IS_ERR (p : Z) : bool := ULONG_MOD - MAX_ERRNO <=? p.

(** [PTR_ERR(p)]: the pointer read as a [long]. *)
Definition PTR_ERR (p : Z) : Z :=
  if p <? 2 ^ 63 then p else p - ULONG_MOD.

(** [MKDEV(ma, mi)], as the 32-bit [dev_t] that is passed on. *)
Definition MKDEV (ma mi : Z) : Z :=
  Z.lor (Z.shiftl ma MINORBITS) mi mod U32_MOD.

(** The file-level variables. *)
Record globals : Type := mk_globals {
  major_number : Z;
  dev_class : Z;
  dev_handle : Z;
  uapi_initialized : Z
}.

(** Their values when the module is loaded. *)
Definition globals0 : globals := mk_globals 0 NULL NULL 0.

(** What the kernel answers to the three creating calls of [uapi_init]. *)
Record kernel_results : Type := mk_kernel_results {
  register_chrdev_result : Z;    (* int: major number, or negative errno *)
  class_create_result : Z;       (* struct class *, or ERR_PTR           *)
  device_create_result : Z       (* struct device *, or ERR_PTR          *)
}.

(** Calls into the kernel, with the result for the creating ones. *)
Inductive kcall : Type :=
| K_register_chrdev (result : Z)
| K_unregister_chrdev (major : Z)
| K_class_create (result : Z)
| K_class_unregister (cls : Z)
| K_class_destroy (cls : Z)
| K_device_create (cls devt result : Z)
| K_device_destroy (cls devt : Z).

(** [uapi_init]: the returned [int], the variables afterwards, the calls. *)
Definition uapi_init (k : kernel_results) (g : globals)
  : Z * globals * list kcall :=
  let major := register_chrdev_result k in
  let g1 := mk_globals major (dev_class g) (dev_handle g)
                       (uapi_initialized g) in
  if major <? 0 then (major, g1, [K_register_chrdev major])
  else
    let cls := class_create_result k in
    let g2 := mk_globals major cls (dev_handle g) (uapi_initialized g) in
    if IS_ERR cls then
      (PTR_ERR cls, g2,
       [K_register_chrdev major; K_class_create cls;
        K_unregister_chrdev major])
    else
      let devt := MKDEV major 0 in
      let dev := device_create_result k in
      let g3 := mk_globals major cls dev (uapi_initialized g) in
      if IS_ERR dev then
        (PTR_ERR dev, g3,
         [K_register_chrdev major; K_class_create cls;
          K_device_create cls devt dev;
          K_class_destroy cls; K_unregister_chrdev major])
      else
        (0, mk_globals major cls dev 1,
         [K_register_chrdev major; K_class_create cls;
          K_device_create cls devt dev]).

(** [uapi_cleanup]: the variables are only read. *)
Definition uapi_cleanup (g : globals) : globals * list kcall :=
  if uapi_initialized g =? 0 then (g, [])
  else
    (g, [K_device_destroy (dev_class g) (MKDEV (major_number g) 0);
         K_class_unregister (dev_class g);
         K_class_destroy (dev_class g);
         K_unregister_chrdev (major_number g)]).

(** Kernel objects a sequence of calls leaves registered. *)
Inductive resource : Type :=
| R_chrdev (major : Z)
| R_class (cls : Z)
| R_device (cls devt : Z).

Definition resource_eqb (a b : resource) : bool :=
  match a, b with
  | R_chrdev m, R_chrdev m' => m =? m'
  | R_class c, R_class c' => c =? c'
  | R_device c d, R_device c' d' => (c =? c') && (d =? d')
  | _, _ => false
  end.

Definition release (r : resource) (held : list resource) : list resource :=
  List.filter (fun x => negb (resource_eqb r x)) held.

(** The object a call creates, when it succeeds, and the object it
    releases. *)
Definition acquired (c : kcall) : option resource :=
  match c with
  | K_register_chrdev r => if r <? 0 then None else Some (R_chrdev r)
  | K_class_create r => if IS_ERR r then None else Some (R_class r)
  | K_device_create cls devt r =>
    if IS_ERR r then None else Some (R_device cls devt)
  | _ => None
  end.

Definition released (c : kcall) : option resource :=
  match c with
  | K_unregister_chrdev m => Some (R_chrdev m)
  | K_class_unregister cls | K_class_destroy cls => Some (R_class cls)
  | K_device_destroy cls devt => Some (R_device cls devt)
  | _ => None
  end.

Fixpoint held_after (held : list resource) (calls : list kcall)
  : list resource :=
  match calls with
  | [] => held
  | c :: calls' =>
    let held1 := match acquired c with
                 | Some r => r :: held
                 | None => held
                 end in
    let held2 := match released c with
                 | Some r => release r held1
                 | None => held1
                 end in
    held_after held2 calls'
  end.

(** How many calls of a sequence release a given object. *)
Definition release_count (r : resource) (calls : list kcall) : nat :=
  length (List.filter
            (fun c => match released c with
                      | Some r' => resource_eqb r r'
                      | None => false
                      end) calls).

(** The three creating calls all succeed. *)
Definition all_created (k : kernel_results) : Prop :=
  0 <= register_chrdev_result k /\
  IS_ERR (class_create_result k) = false /\
  IS_ERR (device_create_result k) = false.

(** Answers of the declared types: an [int] and two pointers. *)
Definition typed_results (k : kernel_results) : Prop :=
  - 2 ^ 31 <= register_chrdev_result k < 2 ^ 31 /\
  is_ulong (class_create_result k) /\
  is_ulong (device_create_result k).

(** Example answers: major 240 and two kernel addresses; [-EBUSY] for the
    registration; [ERR_PTR(-ENOMEM)] for the class or the device. *)
Definition ex_kernel_ok : kernel_results :=
  mk_kernel_results 240 18446612682070000000 18446612682070004096.

Definition ex_kernel_no_chrdev : kernel_results :=
  mk_kernel_results (- 16) 0 0.

Definition ex_kernel_no_class : kernel_results :=
  mk_kernel_results 240 (ULONG_MOD - 12) 0.

Definition ex_kernel_no_device : kernel_results :=
  mk_kernel_results 240 18446612682070000000 (ULONG_MOD - 12).

End Uapi.
Import Uapi.

(** ** File operations of the control device *)

(** [wd_open], [wd_release] and [wd_ioctl] (lines 92-114 and 243-254 of the
    command handlers).  A file owns at most one session through
    [private_data]. *)

Module Device.

Definition ENOMEM : Z := 12.
Definition WASM_LOAD_CODE : Z := 4097.   (* 0x1001 *)
Definition WASM_RUN_CODE : Z := 4098.    (* 0x1002 *)

Section WithExternalTypes.

Variable module_resolver : Type.
Variable load_code_request : Type.
Variable copy_load_request : Z -> option load_code_request.
Variable init_execution_engine :
  load_code_request -> execution_engine module_resolver ->
  Z * execution_engine module_resolver.

(** [handle_wasm_run_code] seen from the dispatcher: it returns a value
    and hands the session's engine to the entry function; it never writes
    [sess->ready]. *)
Variable run_handler :
  privileged_session module_resolver -> Z ->
  Z * execution_engine module_resolver.

(** [struct file]: the one field the handlers use; [None] before
    [wd_open] has set it. *)
Record file : Type := mk_file {
  private_data : option (privileged_session module_resolver)
}.

(** What a release does with the session. *)
Inductive release_event : Type :=
| D_destroy_execution_engine (eng : execution_engine module_resolver)
| D_kfree (sess : privileged_session module_resolver).

(** [wd_open].  [kmalloc] is the allocator's answer: [None] when it fails,
    otherwise the block with whatever it contains. *)
Definition wd_open (kmalloc : option (privileged_session module_resolver))
    (f : file) : Z * file :=
  match kmalloc with
  | None => (- ENOMEM, f)
  | Some raw => (0, mk_file (Some (init_privileged_session raw)))
  end.

(** [wd_release].  [None]: [private_data] was never set. *)
Definition wd_release (f : file) : option (Z * list release_event) :=
  match private_data f with
  | None => None
  | Some sess =>
    Some (0,
          (if negb (ready sess =? 0)
           then [D_destroy_execution_engine (ee sess)]
           else [])
          ++ [D_kfree sess])
  end.

(** [wd_read] and [wd_write]. *)
Definition wd_read : Z := 0.
Definition wd_write : Z := - EINVAL.

(** [wd_ioctl] on the file's session. *)
Definition wd_ioctl (sess : privileged_session module_resolver)
    (cmd arg : Z) : Z * privileged_session module_resolver :=
  if cmd =? WASM_LOAD_CODE
  then handle_wasm_load_code copy_load_request init_execution_engine sess arg
  else if cmd =? WASM_RUN_CODE
  then let '(r, eng) := run_handler sess arg in
       (r, mk_privileged_session (ready sess) eng)
  else (- EINVAL, sess).

(** A sequence of ioctl calls [(cmd, arg)] on one session: the values
    returned, in order, and the session afterwards. *)
Fixpoint ioctl_all (sess : privileged_session module_resolver)
    (ops : list (Z * Z)) : list Z * privileged_session module_resolver :=
  match ops with
  | [] => ([], sess)
  | (cmd, arg) :: ops' =>
    let '(r, sess1) := wd_ioctl sess cmd arg in
    let '(rs, sess2) := ioctl_all sess1 ops' in
    (r :: rs, sess2)
  end.

(** The load commands of a sequence that returned 0. *)
Fixpoint load_successes (ops : list (Z * Z)) (rs : list Z) : nat :=
  match ops, rs with
  | (cmd, _) :: ops', r :: rs' =>
    ((if (cmd =? WASM_LOAD_CODE)%Z && (r =? 0)%Z then 1 else 0)
     + load_successes ops' rs')%nat
  | _, _ => 0%nat
  end.

(** The life of a file: open, some ioctl calls, release. *)
Definition file_life (kmalloc : option (privileged_session module_resolver))
    (ops : list (Z * Z)) : option (list Z * list release_event) :=
  match private_data (snd (wd_open kmalloc (mk_file None))) with
  | None => None
  | Some sess =>
    let '(rs, sess') := ioctl_all sess ops in
    match wd_release (mk_file (Some sess')) with
    | Some (_, evs) => Some (rs, evs)
    | None => None
    end
  end.

End WithExternalTypes.

Arguments mk_file {module_resolver}.
Arguments private_data {module_resolver}.
Arguments D_destroy_execution_engine {module_resolver}.
Arguments D_kfree {module_resolver}.
Arguments wd_open {module_resolver}.
Arguments wd_release {module_resolver}.
Arguments wd_ioctl {module_resolver load_code_request}.
Arguments ioctl_all {module_resolver load_code_request}.
Arguments file_life {module_resolver load_code_request}.

(** A run handler for the examples: it refuses a session that is not
    ready with [-EINVAL], as [handle_wasm_run_code] does, and otherwise
    reports 0; it leaves the engine. *)
Definition ex_run_handler (sess : privileged_session unit) (_ : Z)
  : Z * execution_engine unit :=
  if ready sess =? 0 then (- EINVAL, ee sess) else (0, ee sess).

(** A block as the allocator may hand it out: [ready] holds 7. *)
Definition ex_raw_session : privileged_session unit :=
  mk_privileged_session 7 ex_engine.

End Device.
Import Device.

(** ** More on the run command: what else every run keeps *)

Module RunMore.

Definition is_log_event (ev : event) : bool :=
  match ev with
  | EvLogBad _ | EvLogResult _ => true
  | _ => false
  end.

Definition is_call_event (ev : event) : bool :=
  match ev with
  | EvCall _ => true
  | _ => false
  end.

(** The events of a handler that has returned without a worker: the one
    log line of a failed [kthread_create], when this is why it gave up. *)
Definition rejection_events (ready : Z) (rq : option run_code_request)
  : list event :=
  match rq with
  | None => []
  | Some _ => if ready =? 0 then [] else [EvLogNoRunner]
  end.

(** How many log lines have been written at each program point. *)
Definition log_lines (s : state) : nat :=
  match cpc s with
  | C_drain | C_restore => 1
  | C_returned _ =>
    match wpc s with
    | W_none => 0
    | _ => 1
    end
  | _ => 0
  end.

(** The controller is between [ee_make_code_nx] and [ee_make_code_x]. *)
Definition in_forced_termination (s : state) : Prop :=
  cpc s = C_stop \/ (exists ret, cpc s = C_log ret) \/
  cpc s = C_drain \/ cpc s = C_restore.

Section Machine.

Variable module_resolver : Type.
Variable ee_call0 : execution_engine module_resolver -> Z -> option Z.

(** The log line of a run whose wait was not interrupted, once written. *)
Definition logged (e : env module_resolver) (s : state) : list event :=
  match cpc s with
  | C_drain | C_restore => [EvLogResult (task_ret s)]
  | C_returned _ =>
    match wpc s with
    | W_none => rejection_events (ready (sess e)) (user_req e)
    | _ => [EvLogResult (task_ret s)]
    end
  | _ => []
  end.

(** With no event but those of the task body and the one log line, an
    uninterrupted run has a fixed trace. *)
Definition quiet_inv (e : env module_resolver) (s : state) : Prop :=
  made_nx s = false -> trace s = logged e s ++ worker_trace s.

(** The count never exceeds the releases made. *)
Definition sem_inv (s : state) : Prop :=
  forall n, sem s = Some n -> (n <= ups (wpc s))%nat.

(** When the buffer was executable on entry and the entry function
    returns, a fault in the entry code comes after a successful call of
    [set_memory_nx]. *)
Definition fault_inv (e : env module_resolver) (s : state) : Prop :=
  wpc s = W_killed -> code_x0 e = true ->
  forall rq v,
    user_req e = Some rq ->
    ee_call0 (ee (sess e)) (entry_offset rq) = Some v ->
    set_memory_nx_ok e = true /\
    exists l1 l2,
      trace s = l1 ++ EvFault :: l2 /\
      In (EvSetMemoryNX (code (ee (sess e))) (ee_code_pages (ee (sess e))))
         l2.

Definition log_inv (s : state) : Prop :=
  length (List.filter is_log_event (trace s)) = log_lines s.

Record Aux (e : env module_resolver) (s : state) : Prop := mk_Aux {
  aux_quiet : quiet_inv e s;
  aux_sem : sem_inv s;
  aux_fault : fault_inv e s;
  aux_log : log_inv s
}.

(** No signal has taken effect yet. *)
Definition unsignalled (s : state) : Prop :=
  made_nx s = false /\ cpc s <> C_make_nx.

End Machine.

Arguments logged {module_resolver}.
Arguments quiet_inv {module_resolver}.
Arguments fault_inv {module_resolver}.
Arguments Aux {module_resolver}.

Definition wrk_pc_eq_dec (a b : wrk_pc) : {a = b} + {a <> b}.
Proof. decide equality. Defined.

(** Schedules without a signal. *)
Definition signal_free (ls : list label) : Prop :=
  Forall (fun l => l <> Sig) ls.

(** More concrete runs: a session that is not ready, and a request with a
    nonzero parameter count left without a signal. *)
Definition ex_env_not_ready : env unit :=
  mk_env (mk_privileged_session 0 ex_engine)
         (Some (mk_run_code_request 0 0)) true ∅ true true 11.

Definition final_not_ready : state :=
  mk_state (C_returned (- EINVAL)) W_none (Some (mk_run_code_request 0 0))
    None None false ∅ [].

Definition sched_invalid_unsignalled : list label :=
  [Ctl; Ctl; Ctl; Ctl; Ctl; Wrk; Wrk; Ctl].

Definition blocked_invalid : state :=
  mk_state C_down_interruptible W_exit_invalid
    (Some (mk_run_code_request 0 1)) (Some O) None false ∅
    [EvInvalidParam; EvStarted].

(** A thread that cannot be created. *)
Definition ex_env_no_runner : env unit :=
  mk_env (mk_privileged_session 1 ex_engine)
         (Some (mk_run_code_request 0 0)) false ∅ true true 11.

Definition final_no_runner : state :=
  mk_state (C_returned (- EINVAL)) W_none (Some (mk_run_code_request 0 0))
    (Some O) None false ∅ [EvLogNoRunner].

(** The signal arrives while the worker is inside an entry function that
    would return. *)
Definition sched_killed_early : list label :=
  [Ctl; Ctl; Ctl; Ctl; Ctl; Wrk; Wrk; Ctl; Sig; Ctl; Wrk;
   Ctl; Ctl; Ctl; Ctl].

(** The entry function at offset 16 traps while the handler waits. *)
Definition sched_trap : list label :=
  [Ctl; Ctl; Ctl; Ctl; Ctl; Wrk; Wrk; Ctl; Trap].

Definition after_trap : state :=
  mk_state C_down_interruptible W_killed (Some (mk_run_code_request 16 0))
    (Some O) None false ∅ [EvFault; EvCall 16; EvStarted].

(** A kernel whose [set_memory_x] fails. *)
Definition ex_env_x_fails : env unit :=
  mk_env (mk_privileged_session 1 ex_engine)
         (Some (mk_run_code_request 16 0)) true ∅ true false 11.

(** The forced schedule stopped after the fault. *)
Definition sched_fault : list label :=
  [Ctl; Ctl; Ctl; Ctl; Ctl; Wrk; Wrk; Ctl; Wrk; Wrk; Sig; Ctl; Wrk].

Definition after_fault : state :=
  mk_state C_stop W_killed (Some (mk_run_code_request 16 0)) (Some O) None
    true {[ 2 ]}
    [EvFault; EvSetMemoryNX 8192 1; EvCall 16; EvStarted].

(** The race schedule stopped after the late "finished" release. *)
Definition sched_late_release : list label :=
  [Ctl; Ctl; Ctl; Ctl; Ctl; Wrk; Wrk; Ctl; Wrk; Sig; Ctl; Wrk].

Definition after_late_release : state :=
  mk_state C_stop W_exit_done (Some (mk_run_code_request 0 0)) (Some 1%nat)
    (Some 42) true {[ 2 ]}
    [EvFinished; EvSetMemoryNX 8192 1; EvStore 42; EvCall 0; EvStarted].

End RunMore.
Import RunMore.

(** * Facts about machine words *)

Section MachFacts.

Lemma to_ulong_small z : is_ulong z -> to_ulong z = z.
Proof.
  unfold is_ulong, to_ulong, ULONG_MAX. intros H.
  apply Z.mod_small. lia.
Qed.

Lemma to_ulong_range z : 0 <= to_ulong z < ULONG_MOD.
Proof. unfold to_ulong. apply Z.mod_pos_bound. reflexivity. Qed.

(** One wrap at most: a sum of two in-range words that overflows lands
    strictly below either operand. *)
Lemma to_ulong_add_cases a b :
  0 <= a < ULONG_MOD -> 0 <= b < ULONG_MOD ->
  (a + b < ULONG_MOD /\ to_ulong (a + b) = a + b) \/
  (ULONG_MOD <= a + b /\ to_ulong (a + b) = a + b - ULONG_MOD).
Proof.
  intros Ha Hb. unfold to_ulong.
  destruct (Z_lt_le_dec (a + b) ULONG_MOD) as [Hlt | Hge].
  - left. split; [assumption | apply Z.mod_small; lia].
  - right. split; [assumption |].
    symmetry. apply (Z.mod_unique_pos _ _ 1). lia. lia.
Qed.


Lemma ulong_mod_eq : ULONG_MOD = 18446744073709551616.
Proof. reflexivity. Qed.

(** Clearing the low twelve bits of a word. *)
Lemma land_page_mask a :
  0 <= a < ULONG_MOD ->
  Z.land a (to_ulong (Z.lnot 4095)) = 4096 * (a / 4096).
Proof.
  intros Ha.
  assert (Hmask : to_ulong (Z.lnot 4095) = Z.land (Z.lnot 4095) (Z.ones 64)).
  { unfold to_ulong. rewrite Z.land_ones by lia. reflexivity. }
  rewrite Hmask.
  rewrite (Z.land_comm (Z.lnot 4095)), Z.land_assoc.
  rewrite (Z.land_ones a 64) by lia.
  change (2 ^ 64) with ULONG_MOD.
  rewrite Z.mod_small by assumption.
  rewrite <- Z.ldiff_land.
  change 4095 with (Z.ones 12).
  rewrite Z.ldiff_ones_r by lia.
  rewrite Z.shiftl_mul_pow2, Z.shiftr_div_pow2 by lia.
  change (2 ^ 12) with 4096. lia.
Qed.

End MachFacts.

(** * vm.h: page rounding and the checked slice *)

Section PageRounding.

Lemma round_up_to_page_size_eq x :
  0 <= x <= ULONG_MAX - 4095 ->
  round_up_to_page_size x = 4096 * ((x + 4095) / 4096).
Proof.
  intros Hx. unfold round_up_to_page_size.
  assert (Hr : 0 <= x + 4095 < ULONG_MOD) by (unfold ULONG_MAX in Hx; lia).
  rewrite (to_ulong_small (x + 4095)) by (unfold is_ulong, ULONG_MAX; lia).
  apply land_page_mask. exact Hr.
Qed.

(** C10. For every [unsigned long] x with x <= ULONG_MAX - 4095,
    [round_up_to_page_size x] is the least multiple of 4096 that is greater
    than or equal to x: it is divisible by 4096, it is at least x, it is
    below x + 4096, and no multiple of 4096 that is at least x is smaller. *)
Theorem round_up_to_page_size_least (x : Z) :
  0 <= x <= ULONG_MAX - 4095 ->
  round_up_to_page_size x mod 4096 = 0 /\
  x <= round_up_to_page_size x < x + 4096 /\
  (forall m, m mod 4096 = 0 -> x <= m -> round_up_to_page_size x <= m).
Proof.
  intros Hx. rewrite (round_up_to_page_size_eq x Hx).
  pose proof (Z.div_mod (x + 4095) 4096 ltac:(lia)) as Hdm.
  pose proof (Z.mod_pos_bound (x + 4095) 4096 ltac:(lia)) as Hmb.
  split; [| split].
  - rewrite Z.mul_comm. apply Z.mod_mul. lia.
  - lia.
  - intros m Hm Hle.
    pose proof (Z.div_mod m 4096 ltac:(lia)) as Hmd.
    rewrite Hm in Hmd.
    assert (Hq : (x + 4095) / 4096 <= m / 4096); [| lia].
    destruct (Z_le_gt_dec ((x + 4095) / 4096) (m / 4096)); [assumption | lia].
Qed.

Lemma round_up_to_page_size_least_witness :
  0 <= 5000 <= ULONG_MAX - 4095 /\
  round_up_to_page_size 5000 mod 4096 = 0 /\
  5000 <= round_up_to_page_size 5000 < 5000 + 4096 /\
  (forall m, m mod 4096 = 0 -> 5000 <= m -> round_up_to_page_size 5000 <= m).
Proof.
  split; [vm_compute; split; discriminate |].
  apply (round_up_to_page_size_least 5000).
  vm_compute; split; discriminate.
Defined.

End PageRounding.

Section MemorySlice.

Lemma slice_null_ctx h ctx offset len :
  memories ctx = NULL -> vmctx_get_memory_slice h ctx offset len = Some NULL.
Proof.
  intros Hn. unfold vmctx_get_memory_slice. rewrite Hn. reflexivity.
Qed.

Lemma slice_reads h ctx memp mem offset len :
  memories ctx <> NULL ->
  ptr_cells h !! memories ctx = Some memp ->
  mem_cells h !! memp = Some mem ->
  vmctx_get_memory_slice h ctx offset len = slice_checks mem offset len.
Proof.
  intros Hn Hp Hm. unfold vmctx_get_memory_slice.
  destruct (Z.eqb_spec (memories ctx) NULL) as [Heq | _]; [contradiction |].
  rewrite Hp, Hm. reflexivity.
Qed.

Lemma slice_defined h ctx offset len p :
  vmctx_get_memory_slice h ctx offset len = Some p -> p <> NULL ->
  exists memp mem,
    memories ctx <> NULL /\
    ptr_cells h !! memories ctx = Some memp /\
    mem_cells h !! memp = Some mem /\
    slice_checks mem offset len = Some p.
Proof.
  unfold vmctx_get_memory_slice. intros Hs Hp.
  destruct (Z.eqb_spec (memories ctx) NULL) as [Heq | Hne].
  - congruence.
  - destruct (ptr_cells h !! memories ctx) as [memp |] eqn:Hc; [| discriminate].
    destruct (mem_cells h !! memp) as [mem |] eqn:Hm; [| discriminate].
    exists memp, mem. repeat split; assumption.
Qed.

(** What the four comparisons let through, for words of the declared
    types and with no assumption on the region. *)
Lemma slice_checks_sound mem offset len p :
  is_ulong (base mem) -> is_ulong (bound mem) ->
  is_u32 offset -> is_u32 len ->
  slice_checks mem offset len = Some p -> p <> NULL ->
  p = base mem + offset /\
  base mem <= p /\ p < base mem + bound mem /\
  p + len <= base mem + bound mem.
Proof.
  unfold is_ulong, is_u32, U32_MOD, ULONG_MAX, slice_checks.
  intros Hb Hbd Ho Hl.
  pose proof ulong_mod_eq as HM.
  destruct (to_ulong_add_cases (base mem) offset) as [[Hlt Hbeg] | [Hge Hbeg]];
    try lia; rewrite Hbeg;
  destruct (to_ulong_add_cases (base mem) (bound mem))
    as [[Hlt2 Hre] | [Hge2 Hre]]; try lia; rewrite Hre.
  all: match goal with
       | |- context [to_ulong (?b + ?l)] =>
         destruct (to_ulong_add_cases b l) as [[Hlt3 He] | [Hge3 He]];
           try lia; rewrite He
       end.
  all: repeat match goal with
       | |- context [?a <? ?b] => destruct (Z.ltb_spec a b)
       | |- context [?a <=? ?b] => destruct (Z.leb_spec a b)
       end; simpl; intros Heq Hnz; inversion Heq; subst;
       unfold NULL in *; try lia.
Qed.

Lemma slice_checks_complete mem offset len :
  0 < base mem -> 0 <= bound mem -> base mem + bound mem <= ULONG_MAX ->
  is_u32 offset -> is_u32 len ->
  offset + len <= bound mem -> offset < bound mem ->
  slice_checks mem offset len = Some (base mem + offset).
Proof.
  unfold is_u32, U32_MOD, ULONG_MAX, slice_checks.
  intros Hb Hbd Hfit Ho Hl Hsum Hlt.
  pose proof ulong_mod_eq as HM.
  rewrite (to_ulong_small (base mem + offset))
    by (unfold is_ulong, ULONG_MAX; lia).
  rewrite (to_ulong_small (base mem + offset + len))
    by (unfold is_ulong, ULONG_MAX; lia).
  rewrite (to_ulong_small (base mem + bound mem))
    by (unfold is_ulong, ULONG_MAX; lia).
  repeat match goal with
       | |- context [?a <? ?b] => destruct (Z.ltb_spec a b)
       | |- context [?a <=? ?b] => destruct (Z.leb_spec a b)
       end; simpl; try lia; reflexivity.
Qed.

Lemma valid_memory_words h ctx mem :
  valid_memory h ctx mem -> is_ulong (base mem) /\ is_ulong (bound mem).
Proof.
  intros [_ _ Hb Hbd Hfit]. unfold is_ulong. lia.
Qed.

Lemma ex_valid_memory : valid_memory ex_heap ex_ctx ex_mem.
Proof.
  constructor.
  - discriminate.
  - exists 128. split; reflexivity.
  - reflexivity.
  - discriminate.
  - discriminate.
Qed.

(** The exact success condition of the slice operation on a valid region. *)
Lemma slice_succeeds_iff h ctx mem offset len :
  valid_memory h ctx mem -> is_u32 offset -> is_u32 len ->
  slice_succeeds h ctx offset len <->
  offset + len <= bound mem /\ offset < bound mem.
Proof.
  intros Hv Ho Hl.
  destruct (valid_memory_words h ctx mem Hv) as [Hwb Hwd].
  destruct Hv as [Hn [memp [Hp Hm]] Hb Hbd Hfit].
  unfold slice_succeeds. rewrite (slice_reads h ctx memp mem) by assumption.
  split.
  - intros [p [Hs Hnz]].
    destruct (slice_checks_sound mem offset len p Hwb Hwd Ho Hl Hs Hnz)
      as (Hp1 & Hp2 & Hp3 & Hp4).
    lia.
  - intros [Hsum Hlt]. exists (base mem + offset). split.
    + apply slice_checks_complete; assumption.
    + unfold NULL, is_u32 in *. lia.
Qed.

(** C1, as amended. On a valid region and for all u32 pairs (offset, len),
    the slice operation returns a non-null pointer if and only if
    offset + len <= bound (as a sum that cannot overflow) and moreover
    offset < bound.  For len >= 1 this is exactly offset + len <= bound;
    a range with offset + len = bound + 1 always fails. *)
Theorem vmctx_get_memory_slice_succeeds_iff
    (h : heap) (ctx : vmctx) (mem : local_memory) (offset len : Z) :
  valid_memory h ctx mem -> is_u32 offset -> is_u32 len ->
  (slice_succeeds h ctx offset len <->
     offset + len <= bound mem /\ offset < bound mem) /\
  (1 <= len ->
     (slice_succeeds h ctx offset len <-> offset + len <= bound mem)) /\
  (offset + len = bound mem + 1 -> ~ slice_succeeds h ctx offset len) /\
  (1 <= len -> offset + len = bound mem ->
     vmctx_get_memory_slice h ctx offset len = Some (base mem + offset)).
Proof.
  intros Hv Ho Hl.
  pose proof (slice_succeeds_iff h ctx mem offset len Hv Ho Hl) as Hiff.
  split; [exact Hiff |]. split; [| split].
  - intros Hlen. rewrite Hiff. lia.
  - intros Hsum. rewrite Hiff. lia.
  - intros Hlen Hsum.
    destruct Hv as [Hn [memp [Hp Hm]] Hb Hbd Hfit].
    rewrite (slice_reads h ctx memp mem) by assumption.
    apply slice_checks_complete; try assumption; lia.
Qed.

Lemma vmctx_get_memory_slice_succeeds_iff_witness :
  (slice_succeeds ex_heap ex_ctx 8 8 <->
     8 + 8 <= bound ex_mem /\ 8 < bound ex_mem) /\
  (1 <= 8 ->
     (slice_succeeds ex_heap ex_ctx 8 8 <-> 8 + 8 <= bound ex_mem)) /\
  (8 + 8 = bound ex_mem + 1 -> ~ slice_succeeds ex_heap ex_ctx 8 8) /\
  (1 <= 8 -> 8 + 8 = bound ex_mem ->
     vmctx_get_memory_slice ex_heap ex_ctx 8 8 = Some (base ex_mem + 8)).
Proof.
  apply (vmctx_get_memory_slice_succeeds_iff ex_heap ex_ctx ex_mem 8 8).
  - exact ex_valid_memory.
  - vm_compute. split; [discriminate | reflexivity].
  - vm_compute. split; [discriminate | reflexivity].
Defined.

(** C1, counterexample. On the valid 16-byte region of the example, the
    empty range at offset 16 has offset + len = bound, yet the slice
    operation returns null: success is not equivalent to
    offset + len <= bound. *)
Lemma vmctx_get_memory_slice_boundary_counterexample :
  valid_memory ex_heap ex_ctx ex_mem /\
  is_u32 16 /\ is_u32 0 /\
  16 + 0 = bound ex_mem /\
  vmctx_get_memory_slice ex_heap ex_ctx 16 0 = Some NULL /\
  ~ (forall offset len, is_u32 offset -> is_u32 len ->
       (slice_succeeds ex_heap ex_ctx offset len <->
        offset + len <= bound ex_mem)).
Proof.
  split; [exact ex_valid_memory |].
  split; [vm_compute; split; [discriminate | reflexivity] |].
  split; [vm_compute; split; [discriminate | reflexivity] |].
  split; [reflexivity |].
  split; [vm_compute; reflexivity |].
  intros Hall.
  assert (Hu16 : is_u32 16) by (vm_compute; split; [discriminate | reflexivity]).
  assert (Hu0 : is_u32 0) by (vm_compute; split; [discriminate | reflexivity]).
  destruct (proj2 (Hall 16 0 Hu16 Hu0)) as [p [Hs Hnz]].
  - vm_compute. discriminate.
  - vm_compute in Hs. inversion Hs. subst p. apply Hnz. reflexivity.
Qed.

(** C9. [vmctx_get_memory_slice] never reads through a null memory list:
    for every ctx whose [memories] field is null it returns null, whatever
    the heap holds; on a valid context it always returns; and whenever it
    returns a non-null pointer p, p equals mem->base + offset and the whole
    range [p, p + len) lies within [mem->base, mem->base + mem->bound). *)
Theorem vmctx_get_memory_slice_safe
    (h : heap) (ctx : vmctx) (offset len : Z) :
  is_u32 offset -> is_u32 len ->
  (forall a m, mem_cells h !! a = Some m ->
               is_ulong (base m) /\ is_ulong (bound m)) ->
  (memories ctx = NULL ->
     vmctx_get_memory_slice h ctx offset len = Some NULL) /\
  (forall mem, valid_memory h ctx mem ->
     exists r, vmctx_get_memory_slice h ctx offset len = Some r) /\
  (forall p, vmctx_get_memory_slice h ctx offset len = Some p -> p <> NULL ->
     exists memp mem,
       ptr_cells h !! memories ctx = Some memp /\
       mem_cells h !! memp = Some mem /\
       p = base mem + offset /\
       base mem <= p /\ p + len <= base mem + bound mem).
Proof.
  intros Ho Hl Hwords. split; [| split].
  - apply slice_null_ctx.
  - intros mem [Hn [memp [Hp Hm]] Hb Hbd Hfit].
    rewrite (slice_reads h ctx memp mem) by assumption.
    unfold slice_checks.
    match goal with |- context [if ?c then _ else _] => destruct c end;
      eexists; reflexivity.
  - intros p Hs Hnz.
    destruct (slice_defined h ctx offset len p Hs Hnz)
      as (memp & mem & Hn & Hp & Hm & Hc).
    destruct (Hwords memp mem Hm) as [Hwb Hwd].
    destruct (slice_checks_sound mem offset len p Hwb Hwd Ho Hl Hc Hnz)
      as (Hp1 & Hp2 & Hp3 & Hp4).
    exists memp, mem. repeat split; assumption.
Qed.

End MemorySlice.

Section MemorySliceExamples.

Lemma ex_heap_words a m :
  mem_cells ex_heap !! a = Some m -> is_ulong (base m) /\ is_ulong (bound m).
Proof.
  simpl. intros Hm. apply lookup_singleton_Some in Hm as [_ <-].
  vm_compute. repeat split; discriminate.
Qed.

Lemma vmctx_get_memory_slice_safe_witness :
  (memories ex_ctx = NULL ->
     vmctx_get_memory_slice ex_heap ex_ctx 4 8 = Some NULL) /\
  (forall mem, valid_memory ex_heap ex_ctx mem ->
     exists r, vmctx_get_memory_slice ex_heap ex_ctx 4 8 = Some r) /\
  (forall p, vmctx_get_memory_slice ex_heap ex_ctx 4 8 = Some p -> p <> NULL ->
     exists memp mem,
       ptr_cells ex_heap !! memories ex_ctx = Some memp /\
       mem_cells ex_heap !! memp = Some mem /\
       p = base mem + 4 /\
       base mem <= p /\ p + 8 <= base mem + bound mem).
Proof.
  apply (vmctx_get_memory_slice_safe ex_heap ex_ctx 4 8).
  - vm_compute. split; [discriminate | reflexivity].
  - vm_compute. split; [discriminate | reflexivity].
  - exact ex_heap_words.
Defined.

Example slice_inside : vmctx_get_memory_slice ex_heap ex_ctx 4 8 = Some 4100.
Proof. vm_compute. reflexivity. Qed.

Example slice_whole : vmctx_get_memory_slice ex_heap ex_ctx 0 16 = Some 4096.
Proof. vm_compute. reflexivity. Qed.

Example slice_last_byte :
  vmctx_get_memory_slice ex_heap ex_ctx 15 1 = Some 4111.
Proof. vm_compute. reflexivity. Qed.

Example slice_past : vmctx_get_memory_slice ex_heap ex_ctx 8 9 = Some NULL.
Proof. vm_compute. reflexivity. Qed.

Example slice_wrap :
  vmctx_get_memory_slice ex_heap ex_ctx 4294967295 4294967295 = Some NULL.
Proof. vm_compute. reflexivity. Qed.

Example slice_null_list :
  vmctx_get_memory_slice (mk_heap ∅ ∅) null_ctx 0 1 = Some NULL.
Proof. reflexivity. Qed.

Example slice_dangling_list :
  vmctx_get_memory_slice (mk_heap ∅ ∅) ex_ctx 0 1 = None.
Proof. reflexivity. Qed.

Example round_up_0 : round_up_to_page_size 0 = 0.
Proof. reflexivity. Qed.

Example round_up_1 : round_up_to_page_size 1 = 4096.
Proof. reflexivity. Qed.

Example round_up_4096 : round_up_to_page_size 4096 = 4096.
Proof. reflexivity. Qed.

Example round_up_4097 : round_up_to_page_size 4097 = 8192.
Proof. reflexivity. Qed.

(** Past the stated range the sum wraps and the result is 0. *)
Example round_up_wraps : round_up_to_page_size (ULONG_MAX - 4094) = 0.
Proof. reflexivity. Qed.

End MemorySliceExamples.

(** * The load command *)

Section LoadCommand.

Variable module_resolver : Type.
Variable load_code_request : Type.
Variable copy_load_request : Z -> option load_code_request.
Variable init_execution_engine :
  load_code_request -> execution_engine module_resolver ->
  Z * execution_engine module_resolver.

Local Abbreviation load :=
  (handle_wasm_load_code copy_load_request init_execution_engine).
Local Abbreviation init_succeeds :=
  (Session.init_succeeds copy_load_request init_execution_engine).
Local Abbreviation load_fails :=
  (Session.load_fails copy_load_request init_execution_engine).

(** C6. For every session in the Ready state, a load operation fails with
    the error the handler uses for an already loaded session ([-EINVAL], a
    negative return value), and the session afterwards, its ready flag and
    every field of its engine, is the session before; neither the request
    copy nor the engine initialisation takes part in the result. *)
Theorem handle_wasm_load_code_already_loaded
    (sess : privileged_session module_resolver) (arg : Z) :
  ready sess <> 0 ->
  load sess arg = (- EINVAL, sess) /\
  fst (load sess arg) < 0 /\
  ready (snd (load sess arg)) = ready sess /\
  ee (snd (load sess arg)) = ee sess.
Proof.
  intros Hr.
  assert (Heq : load sess arg = (- EINVAL, sess)).
  { unfold handle_wasm_load_code.
    destruct (Z.eqb_spec (ready sess) 0) as [H0 | _]; [contradiction |].
    reflexivity. }
  rewrite Heq. simpl. repeat split; reflexivity.
Qed.

Lemma load_unloaded_cases sess arg :
  ready sess = 0 ->
  (load_fails sess arg /\ fst (load sess arg) < 0 /\
   ready (snd (load sess arg)) = 0) \/
  (init_succeeds sess arg /\ fst (load sess arg) = 0 /\
   ready (snd (load sess arg)) = 1).
Proof.
  intros Hr. unfold handle_wasm_load_code, Session.load_fails, Session.init_succeeds.
  rewrite Hr. simpl.
  destruct (copy_load_request arg) as [req |] eqn:Hc.
  - destruct (init_execution_engine req (ee sess)) as [err ee'] eqn:Hi.
    destruct (Z.ltb_spec err 0) as [Hneg | Hpos]; simpl.
    + left. split; [| split]; [| assumption | reflexivity].
      right. exists req. rewrite Hi. simpl. split; [reflexivity | assumption].
    + right. split; [| split]; [| reflexivity | reflexivity].
      exists req. rewrite Hi. simpl. split; [reflexivity | assumption].
  - left. split; [left; reflexivity |]. split; [reflexivity | exact Hr].
Qed.

Lemma load_fails_not_succeeds sess arg :
  load_fails sess arg -> ~ init_succeeds sess arg.
Proof.
  intros [Hn | [req [Hc Hneg]]] [req' [Hc' Hpos]].
  - congruence.
  - rewrite Hc in Hc'. inversion Hc'. subst. lia.
Qed.

(** C7. On an Unloaded session, every load that fails (the request copy
    fails, or the engine initialisation reports a negative value) returns a
    negative error and leaves ready at 0; the session becomes Ready exactly
    when the engine initialisation succeeds; and on a session left Unloaded
    by a failed load, a further load whose copy and initialisation succeed
    returns 0 and makes the session Ready (the load may be retried). *)
Theorem handle_wasm_load_code_failure_keeps_unloaded
    (sess : privileged_session module_resolver) (arg : Z) :
  ready sess = 0 ->
  (load_fails sess arg ->
     fst (load sess arg) < 0 /\ ready (snd (load sess arg)) = 0) /\
  (ready (snd (load sess arg)) <> 0 <-> init_succeeds sess arg) /\
  (init_succeeds sess arg ->
     fst (load sess arg) = 0 /\ ready (snd (load sess arg)) = 1) /\
  (load_fails sess arg -> forall arg',
     init_succeeds (snd (load sess arg)) arg' ->
     fst (load (snd (load sess arg)) arg') = 0 /\
     ready (snd (load (snd (load sess arg)) arg')) = 1).
Proof.
  intros Hr.
  destruct (load_unloaded_cases sess arg Hr)
    as [(Hf & Hneg & Hz) | (Hs & Hzero & Hone)].
  - pose proof (load_fails_not_succeeds sess arg Hf) as Hns.
    split; [| split; [| split]].
    + intros _. split; assumption.
    + split; [intros Hnz; congruence | intros Hs; contradiction].
    + intros Hs. contradiction.
    + intros _ arg' Hs'.
      destruct (load_unloaded_cases (snd (load sess arg)) arg' Hz)
        as [(Hf' & _) | (_ & Hzero' & Hone')].
      * exfalso. exact (load_fails_not_succeeds _ _ Hf' Hs').
      * split; assumption.
  - split; [| split; [| split]].
    + intros Hf. exfalso. exact (load_fails_not_succeeds sess arg Hf Hs).
    + split; [intros _; exact Hs | intros _; rewrite Hone; discriminate].
    + intros _. split; assumption.
    + intros Hf. exfalso. exact (load_fails_not_succeeds sess arg Hf Hs).
Qed.

End LoadCommand.

Section LoadCommandExamples.

Local Abbreviation ex_load := (handle_wasm_load_code ex_copy_load ex_init).

Example load_ok : fst (ex_load ex_fresh_session 100) = 0.
Proof. reflexivity. Qed.

Example load_ok_ready : ready (snd (ex_load ex_fresh_session 100)) = 1.
Proof. reflexivity. Qed.

Example load_copy_fault : ex_load ex_fresh_session 0 = (- EFAULT, ex_fresh_session).
Proof. reflexivity. Qed.

Example load_too_large :
  ex_load ex_fresh_session (MAX_CODE_SIZE + 1) = (- EINVAL, ex_fresh_session).
Proof. reflexivity. Qed.

Example load_twice :
  ex_load (snd (ex_load ex_fresh_session 100)) 200
  = (- EINVAL, snd (ex_load ex_fresh_session 100)).
Proof. reflexivity. Qed.

Lemma handle_wasm_load_code_already_loaded_witness :
  ex_load ex_ready_session 100 = (- EINVAL, ex_ready_session) /\
  fst (ex_load ex_ready_session 100) < 0 /\
  ready (snd (ex_load ex_ready_session 100)) = ready ex_ready_session /\
  ee (snd (ex_load ex_ready_session 100)) = ee ex_ready_session.
Proof.
  apply (handle_wasm_load_code_already_loaded unit Z ex_copy_load ex_init
           ex_ready_session 100).
  simpl. lia.
Defined.

Lemma handle_wasm_load_code_failure_keeps_unloaded_witness :
  (load_fails ex_copy_load ex_init ex_fresh_session 0 ->
     fst (ex_load ex_fresh_session 0) < 0 /\
     ready (snd (ex_load ex_fresh_session 0)) = 0) /\
  (ready (snd (ex_load ex_fresh_session 0)) <> 0 <->
     init_succeeds ex_copy_load ex_init ex_fresh_session 0) /\
  (init_succeeds ex_copy_load ex_init ex_fresh_session 0 ->
     fst (ex_load ex_fresh_session 0) = 0 /\
     ready (snd (ex_load ex_fresh_session 0)) = 1) /\
  (load_fails ex_copy_load ex_init ex_fresh_session 0 -> forall arg',
     init_succeeds ex_copy_load ex_init
       (snd (ex_load ex_fresh_session 0)) arg' ->
     fst (ex_load (snd (ex_load ex_fresh_session 0)) arg') = 0 /\
     ready (snd (ex_load (snd (ex_load ex_fresh_session 0)) arg')) = 1).
Proof.
  apply (handle_wasm_load_code_failure_keeps_unloaded unit Z ex_copy_load
           ex_init ex_fresh_session 0).
  reflexivity.
Defined.

Example load_fails_at_null : load_fails ex_copy_load ex_init ex_fresh_session 0.
Proof. left. reflexivity. Qed.

End LoadCommandExamples.

(** * The run command *)

Section RunInvariant.

Variable module_resolver : Type.
Variable ee_call0 : execution_engine module_resolver -> Z -> option Z.

Local Abbreviation Inv := (Run.Inv ee_call0).
Local Abbreviation step := (Run.step ee_call0).
Local Abbreviation exec := (Run.exec ee_call0).
Local Abbreviation run := (Run.run ee_call0).

Lemma init_inv e : Inv e (init_state e).
Proof.
  constructor; simpl.
  - intros H. contradiction.
  - intros H. contradiction.
  - unfold ctl_inv. simpl. repeat split; reflexivity.
  - unfold wrk_inv. simpl. split; reflexivity.
  - unfold prot_inv. simpl. split; reflexivity.
Qed.

Ltac break_step H :=
  repeat match type of H with
  | context [match ?x with _ => _ end] =>
    lazymatch x with
    | context [match _ with _ => _ end] => fail
    | _ => destruct x eqn:?; try discriminate H
    end
  end.

Ltac open_hyps :=
  repeat match goal with
  | H : exists _, _ |- _ => destruct H
  | H : _ /\ _ |- _ => destruct H
  | H : _ \/ _ |- _ => destruct H
  | H : Some _ = Some _ |- _ => inversion H; clear H; subst
  | H : (_ =? _) = true |- _ => apply Z.eqb_eq in H
  | H : (_ =? _) = false |- _ => apply Z.eqb_neq in H
  | H : negb _ = true |- _ => apply negb_true_iff in H
  | H : negb _ = false |- _ => apply negb_false_iff in H
  | H : ?a <> ?b -> _ |- _ =>
    first [ specialize (H ltac:(discriminate)) | clear H ]
  | H : ?a = ?b -> _ |- _ =>
    first [ specialize (H eq_refl) | clear H ]
  end.

Ltac finish :=
  solve [ reflexivity | eassumption | discriminate | congruence | lia
        | simpl; tauto
        | intro; finish
        | split; finish
        | left; finish | right; finish ].

Ltac split_goal :=
  repeat match goal with
  | |- _ /\ _ => split
  | |- forall _, _ => intro
  | |- exists _, _ => eexists
  end.

Ltac unfold_inv :=
  unfold ctl_inv, wrk_inv, prot_inv, worker_trace, protection_trace,
    reaped, early_return in *.

Ltac unfold_step H :=
  unfold handle_wasm_run_code_step, code_runner_inner_step, signal_step,
    entry_trap_step, ee_make_code_nx, ee_make_code_x, set_memory_nx,
    set_memory_x, sem_take, sem_up, goto, wgoto, set_req, set_sem, set_ret,
    set_made_nx, set_nx_pages, emit in H;
  simpl in H.

Lemma ctl_step_inv e s s' :
  Inv e s -> handle_wasm_run_code_step e s = Some s' -> Inv e s'.
Proof.
  intros [Hreq Henv Hctl Hwrk Hprot] Hstep.
  destruct s as [c w rq sm tr mn nx t].
  unfold_inv. simpl in *. unfold_step Hstep.
  destruct c, w, mn; simpl in *; break_step Hstep; open_hyps; subst;
    simpl in *; try congruence.
  all: constructor; unfold_inv; simpl; split_goal; try finish.
Qed.

Lemma wrk_step_inv e s s' :
  Inv e s -> code_runner_inner_step ee_call0 e s = Some s' -> Inv e s'.
Proof.
  intros [Hreq Henv Hctl Hwrk Hprot] Hstep.
  destruct s as [c w rq sm tr mn nx t].
  unfold_inv. simpl in *. unfold_step Hstep.
  destruct w, c, mn; simpl in *; break_step Hstep; open_hyps; subst;
    simpl in *; try congruence.
  all: constructor; unfold_inv; simpl; split_goal; try finish.
Qed.

Lemma signal_step_inv e s s' : Inv e s -> signal_step s = Some s' -> Inv e s'.
Proof.
  intros [Hreq Henv Hctl Hwrk Hprot] Hstep.
  destruct s as [c w rq sm tr mn nx t].
  unfold_inv. simpl in *. unfold_step Hstep.
  destruct c, w, mn; simpl in *; break_step Hstep; open_hyps; subst;
    simpl in *; try congruence.
  all: constructor; unfold_inv; simpl; split_goal; try finish.
Qed.

Lemma trap_step_inv e s s' :
  Inv e s -> entry_trap_step ee_call0 e s = Some s' -> Inv e s'.
Proof.
  intros [Hreq Henv Hctl Hwrk Hprot] Hstep.
  destruct s as [c w rq sm tr mn nx t].
  unfold_inv. simpl in *. unfold_step Hstep.
  destruct w, c, mn; simpl in *; break_step Hstep; open_hyps; subst;
    simpl in *; try congruence.
  all: constructor; unfold_inv; simpl; split_goal; try finish.
Qed.

Lemma step_inv e l s s' : Inv e s -> step e l s = Some s' -> Inv e s'.
Proof.
  destruct l; simpl.
  - apply ctl_step_inv.
  - apply wrk_step_inv.
  - apply signal_step_inv.
  - apply trap_step_inv.
Qed.

Lemma exec_inv e ls : forall s s', Inv e s -> exec e ls s = Some s' -> Inv e s'.
Proof.
  induction ls as [| l ls IH]; simpl; intros s s' Hinv Hex.
  - inversion Hex. subst. exact Hinv.
  - destruct (step e l s) as [s1 |] eqn:Hst; [| discriminate].
    apply (IH s1 s'); [| exact Hex].
    exact (step_inv e l s s1 Hinv Hst).
Qed.

Lemma run_inv e ls s : run e ls = Some s -> Inv e s.
Proof.
  unfold Run.run. apply exec_inv. apply init_inv.
Qed.

Lemma exec_app e ls1 : forall ls2 s,
  exec e (ls1 ++ ls2) s =
  match exec e ls1 s with
  | Some s1 => exec e ls2 s1
  | None => None
  end.
Proof.
  induction ls1 as [| l ls1 IH]; simpl; intros ls2 s.
  - reflexivity.
  - destruct (step e l s) as [s1 |]; [apply IH | reflexivity].
Qed.

(** Events are only ever added. *)
Lemma step_history e l s s' :
  step e l s = Some s' -> exists evs, trace s' = evs ++ trace s.
Proof.
  intros Hstep. destruct s as [c w rq sm tr mn nx t].
  destruct l; simpl in Hstep; unfold_step Hstep;
    [destruct c | destruct w | destruct c | destruct w];
    break_step Hstep; inversion Hstep; subst; simpl;
    first [ exists []; reflexivity | eexists [_]; reflexivity ].
Qed.

Lemma history_grows e ls : forall s s',
  exec e ls s = Some s' -> forall ev, In ev (history s) -> In ev (history s').
Proof.
  induction ls as [| l ls IH]; simpl; intros s s' Hex ev Hin.
  - inversion Hex. subst. exact Hin.
  - destruct (step e l s) as [s1 |] eqn:Hst; [| discriminate].
    apply (IH s1 s' Hex).
    destruct (step_history e l s s1 Hst) as [evs Hevs].
    unfold history in *. rewrite <- List.in_rev in *.
    rewrite Hevs. apply in_or_app. right. exact Hin.
Qed.

(** *** Progress *)

Ltac take_step l :=
  exists l; simpl;
  unfold handle_wasm_run_code_step, code_runner_inner_step, signal_step,
    entry_trap_step, ee_make_code_nx, ee_make_code_x, set_memory_nx,
    set_memory_x, sem_take, sem_up, goto, wgoto, set_req, set_sem, set_ret,
    set_made_nx, set_nx_pages, emit, rank;
  simpl;
  repeat match goal with
  | H : ?x = _ |- context [match ?x with _ => _ end] => rewrite H
  | |- context [match ?x with _ => _ end] =>
    lazymatch x with
    | context [match _ with _ => _ end] => fail
    | _ => destruct x eqn:?
    end
  end;
  open_hyps; subst; simpl in *; try congruence;
  eexists; (split; [reflexivity | simpl; lia]).

(** Until the handler has returned, some move brings it closer to its
    return: the controller when it is not blocked, else a signal, else the
    worker, which leaves the entry code by its return or by a fault. *)
Lemma step_decreases e s :
  Inv e s -> returned s = None ->
  exists l s', step e l s = Some s' /\ (rank s' < rank s)%nat.
Proof.
  intros [Hreq Henv Hctl Hwrk Hprot] Hret.
  destruct s as [c w rq sm tr mn nx t].
  unfold_inv. unfold returned in Hret. simpl in *.
  destruct c, w, mn; simpl in *; open_hyps; subst; simpl in *;
    try congruence.
  all: first [ solve [take_step Ctl] | solve [take_step Sig]
             | solve [take_step Wrk]
             | match goal with
               | r : run_code_request |- _ =>
                 destruct (ee_call0 (ee (sess e)) (entry_offset r)) eqn:?;
                 [ solve [take_step Wrk] | solve [take_step Trap] ]
               end ].
Qed.

Lemma can_return_from e : forall n s,
  (rank s < n)%nat -> Inv e s ->
  exists ls s' r, exec e ls s = Some s' /\ returned s' = Some r.
Proof.
  induction n as [| n IH]; intros s Hlt Hinv.
  - lia.
  - destruct (returned s) as [r |] eqn:Hret.
    + exists [], s, r. split; [reflexivity | exact Hret].
    + destruct (step_decreases e s Hinv Hret) as (l & s1 & Hst & Hrk).
      destruct (IH s1) as (ls & s' & r & Hex & Hr).
      * lia.
      * exact (step_inv e l s s1 Hinv Hst).
      * exists (l :: ls), s', r. split; [| exact Hr].
        simpl. rewrite Hst. exact Hex.
Qed.

(** From every state a run can reach, the handler can be brought to its
    return: no interleaving leaves the two threads deadlocked. *)
Lemma run_can_return e ls s :
  run e ls = Some s ->
  exists ls' s' r, run e (ls ++ ls') = Some s' /\ returned s' = Some r.
Proof.
  intros Hrun.
  destruct (can_return_from e (S (rank s)) s) as (ls' & s' & r & Hex & Hr).
  - lia.
  - exact (run_inv e ls s Hrun).
  - exists ls', s', r. split; [| exact Hr].
    unfold Run.run in *. rewrite exec_app, Hrun. exact Hex.
Qed.

End RunInvariant.

(** ** Order of events in a history *)

Section EventOrder.

Lemma before_nil a b : ~ before a b [].
Proof.
  intros (l1 & l2 & l3 & H). destruct l1; discriminate H.
Qed.

Lemma before_cons_inv a b x h :
  before a b (x :: h) -> (a = x /\ In b h) \/ before a b h.
Proof.
  intros (l1 & l2 & l3 & H). destruct l1 as [| y l1]; simpl in H.
  - inversion H. subst. left. split; [reflexivity |].
    apply in_or_app. right. left. reflexivity.
  - inversion H. subst. right. exists l1, l2, l3. reflexivity.
Qed.

Lemma before_cons a b x h : before a b h -> before a b (x :: h).
Proof.
  intros (l1 & l2 & l3 & H). exists (x :: l1), l2, l3. subst. reflexivity.
Qed.

Lemma before_head a b h : In b h -> before a b (a :: h).
Proof.
  intros Hin. apply in_split in Hin as (l2 & l3 & ->).
  exists [], l2, l3. reflexivity.
Qed.

(** Both events survive a projection that keeps them, in the same order. *)
Lemma before_filter (f : event -> bool) a b h :
  f a = true -> f b = true -> before a b h -> before a b (List.filter f h).
Proof.
  intros Ha Hb (l1 & l2 & l3 & ->).
  exists (List.filter f l1), (List.filter f l2), (List.filter f l3).
  rewrite List.filter_app. simpl. rewrite Ha.
  rewrite List.filter_app. simpl. rewrite Hb. reflexivity.
Qed.

(** An order seen in a projection holds in the full history. *)
Lemma before_of_filter (f : event -> bool) a b h :
  before a b (List.filter f h) -> before a b h.
Proof.
  induction h as [| x h IH]; simpl; intros Hb.
  - exact Hb.
  - destruct (f x) eqn:Hfx.
    + apply before_cons_inv in Hb as [[-> Hin] | Hb].
      * apply before_head. apply List.filter_In in Hin. tauto.
      * apply before_cons. apply IH. exact Hb.
    + apply before_cons. apply IH. exact Hb.
Qed.

Lemma worker_history s :
  List.filter is_worker_event (history s) = rev (worker_trace s).
Proof. unfold history, worker_trace. apply List.filter_rev. Qed.

Lemma protection_history s :
  List.filter is_protection_event (history s) = rev (protection_trace s).
Proof. unfold history, protection_trace. apply List.filter_rev. Qed.

Lemma in_history_worker ev s :
  is_worker_event ev = true ->
  In ev (history s) -> In ev (worker_trace s).
Proof.
  intros Hw Hin. unfold history in Hin. apply List.in_rev in Hin.
  unfold worker_trace. apply List.filter_In. split; assumption.
Qed.

Lemma in_history_protection ev s :
  is_protection_event ev = true ->
  In ev (history s) <-> In ev (protection_trace s).
Proof.
  intros Hp. unfold history, protection_trace.
  rewrite <- List.in_rev, List.filter_In. tauto.
Qed.

End EventOrder.

(** ** The pages of the code buffer *)

Section CodePages.

Variable module_resolver : Type.

Lemma is_u32_bounds z : is_u32 z -> 0 <= z < 4294967296.
Proof. unfold is_u32, U32_MOD. change (2 ^ 32) with 4294967296. tauto. Qed.

Lemma ulong_max_eq : ULONG_MAX = 18446744073709551615.
Proof. reflexivity. Qed.

Lemma elem_of_page_range p addr pages :
  p ∈ page_range addr pages <-> addr / 4096 <= p < addr / 4096 + pages.
Proof.
  unfold page_range. rewrite elem_of_list_to_set, elem_of_seqZ. tauto.
Qed.

Lemma elem_of_buffer_pages (eng : execution_engine module_resolver) p :
  p ∈ buffer_pages eng <->
  0 < code_len eng /\
  code eng / 4096 <= p <= (code eng + code_len eng - 1) / 4096.
Proof.
  unfold buffer_pages. destruct (code_len eng <=? 0) eqn:Hlen.
  - apply Z.leb_le in Hlen. rewrite elem_of_empty. lia.
  - apply Z.leb_gt in Hlen.
    rewrite elem_of_list_to_set, elem_of_seqZ. lia.
Qed.

Lemma ee_code_pages_eq (eng : execution_engine module_resolver) :
  is_u32 (code_len eng) ->
  ee_code_pages eng = (code_len eng + 4095) / 4096.
Proof.
  intros Hlen. apply is_u32_bounds in Hlen. unfold ee_code_pages.
  rewrite round_up_to_page_size_eq by (rewrite ulong_max_eq; lia).
  rewrite Z.mul_comm. apply Z.div_mul. lia.
Qed.

(** The pages the two kernel calls name are pages of the code buffer. *)
Lemma code_pages_in_buffer (eng : execution_engine module_resolver) p :
  is_u32 (code_len eng) ->
  p ∈ page_range (code eng) (ee_code_pages eng) -> p ∈ buffer_pages eng.
Proof.
  intros Hlen. rewrite elem_of_page_range, elem_of_buffer_pages.
  rewrite (ee_code_pages_eq eng Hlen).
  apply is_u32_bounds in Hlen. intros Hp.
  assert (Hpos : 0 < code_len eng).
  { destruct (Z.eq_dec (code_len eng) 0) as [H0 | H0]; [| lia].
    rewrite H0 in Hp. change ((0 + 4095) / 4096) with 0 in Hp. lia. }
  split; [exact Hpos |]. split; [lia |].
  pose proof (Z.div_mod (code eng) 4096 ltac:(lia)) as Hc.
  pose proof (Z.mod_pos_bound (code eng) 4096 ltac:(lia)) as Hcm.
  pose proof (Z.div_mod (code_len eng + 4095) 4096 ltac:(lia)) as Hl.
  pose proof (Z.mod_pos_bound (code_len eng + 4095) 4096 ltac:(lia)) as Hlm.
  apply Z.div_le_lower_bound; lia.
Qed.

(** When the code starts on a page boundary they are all of them. *)
Lemma buffer_in_code_pages (eng : execution_engine module_resolver) p :
  is_u32 (code_len eng) -> code eng mod 4096 = 0 ->
  p ∈ buffer_pages eng -> p ∈ page_range (code eng) (ee_code_pages eng).
Proof.
  intros Hlen Hal. rewrite elem_of_page_range, elem_of_buffer_pages.
  rewrite (ee_code_pages_eq eng Hlen).
  apply is_u32_bounds in Hlen. intros (Hpos & Hlo & Hhi).
  split; [exact Hlo |].
  pose proof (Z.div_mod (code eng) 4096 ltac:(lia)) as Hc.
  pose proof (Z.div_mod (code_len eng + 4095) 4096 ltac:(lia)) as Hl.
  pose proof (Z.mod_pos_bound (code_len eng + 4095) 4096 ltac:(lia)) as Hlm.
  assert (Hlt : (code eng + code_len eng - 1) / 4096
                < code eng / 4096 + (code_len eng + 4095) / 4096).
  { apply Z.div_lt_upper_bound; lia. }
  lia.
Qed.

(** For a buffer that is executable on entry, a successful [set_memory_x]
    on the pages of the code leaves exactly the pages without execute
    permission that were so on entry, whether the [set_memory_nx] before it
    succeeded or not. *)
Lemma nx_pages_restored_eq (e : env module_resolver) :
  is_u32 (code_len (ee (sess e))) -> code_x0 e = true ->
  set_memory_x_ok e = true ->
  nx_pages_restored e = nx_pages0 e.
Proof.
  intros Hlen Hx0 Hok. unfold code_x0 in Hx0.
  apply bool_decide_eq_true in Hx0.
  assert (Hdisj : forall p,
            p ∈ page_range (code (ee (sess e))) (ee_code_pages (ee (sess e))) ->
            p ∉ nx_pages0 e).
  { intros p Hp Hnx. apply (Hx0 p); [| exact Hnx].
    apply code_pages_in_buffer; assumption. }
  unfold nx_pages_restored, nx_pages_revoked, grant_x, revoke_x.
  rewrite Hok. apply set_eq. intros p.
  destruct (set_memory_nx_ok e);
    rewrite ?elem_of_difference, ?elem_of_union; split.
  - intros [[H | H] Hn]; [exact H | contradiction].
  - intros H. split; [left; exact H |]. intros Hp. exact (Hdisj p Hp H).
  - intros [H _]. exact H.
  - intros H. split; [exact H |]. intros Hp. exact (Hdisj p Hp H).
Qed.

(** A successful [set_memory_nx] on the pages of the code takes the execute
    permission from every page of a buffer that starts on a page
    boundary. *)
Lemma nx_pages_revoked_covers (e : env module_resolver) p :
  is_u32 (code_len (ee (sess e))) -> code (ee (sess e)) mod 4096 = 0 ->
  set_memory_nx_ok e = true ->
  p ∈ buffer_pages (ee (sess e)) -> p ∈ nx_pages_revoked e.
Proof.
  intros Hlen Hal Hok Hp. unfold nx_pages_revoked, revoke_x. rewrite Hok.
  apply elem_of_union. right. apply buffer_in_code_pages; assumption.
Qed.

(** A buffer that is not empty has a page: the one of its first byte. *)
Lemma first_page_in_buffer (eng : execution_engine module_resolver) :
  0 < code_len eng -> code eng / 4096 ∈ buffer_pages eng.
Proof.
  intros Hpos. apply elem_of_buffer_pages. split; [exact Hpos |].
  split; [lia |]. apply Z.div_le_mono; lia.
Qed.

(** A failed [set_memory_nx] leaves the buffer as it was. *)
Lemma nx_pages_revoked_failed (e : env module_resolver) :
  set_memory_nx_ok e = false -> nx_pages_revoked e = nx_pages0 e.
Proof.
  intros Hok. unfold nx_pages_revoked, revoke_x. rewrite Hok. reflexivity.
Qed.

End CodePages.

(** ** What every reachable state of a run satisfies *)

Section RunTheorems.

Variable module_resolver : Type.
Variable ee_call0 : execution_engine module_resolver -> Z -> option Z.

Local Abbreviation run := (Run.run ee_call0).
Local Abbreviation run_outcome := (Run.run_outcome ee_call0).

Ltac use_inv H :=
  let Hreq := fresh "Hreq" in
  let Henv := fresh "Henv" in
  let Hctl := fresh "Hctl" in
  let Hwrk := fresh "Hwrk" in
  let Hprot := fresh "Hprot" in
  destruct (run_inv _ ee_call0 _ _ _ H) as [Hreq Henv Hctl Hwrk Hprot].

(** The request the worker reads is the one the controller copied. *)
Lemma worker_request e ls s :
  run e ls = Some s -> wpc s <> W_none -> req s = user_req e.
Proof.
  intros Hrun Hw. use_inv Hrun. apply Hreq. intros Hc.
  unfold ctl_inv in Hctl. rewrite Hc in Hctl. tauto.
Qed.

Lemma worker_history_shape e ls s :
  run e ls = Some s ->
  worker_shape ee_call0 e s (List.filter is_worker_event (history s)).
Proof.
  intros Hrun. rewrite worker_history.
  pose proof (worker_request e ls s Hrun) as Hrq.
  use_inv Hrun. unfold wrk_inv in Hwrk.
  destruct (wpc s) eqn:Hw;
    repeat match goal with
    | H : exists _, _ |- _ => destruct H
    | H : _ /\ _ |- _ => destruct H
    end;
    try (rewrite Hrq in * by discriminate);
    match goal with
    | H : worker_trace s = _ |- _ => rewrite H
    end; simpl; econstructor; eauto.
Qed.

Ltac refute_before H :=
  repeat first
    [ apply before_nil in H; contradiction
    | let Heq := fresh "Heq" in
      let Hin := fresh "Hin" in
      apply before_cons_inv in H as [[Heq Hin] | H];
      [ try discriminate Heq; simpl in Hin; intuition discriminate | ] ].

Lemma returned_cases (e : env module_resolver) ls s r :
  run e ls = Some s -> returned s = Some r ->
  (wpc s = W_none /\ early_return e r /\ made_nx s = false /\
   (sem s = None \/ sem s = Some O)) \/
  (reaped s /\ sem s = Some O /\ r = 0).
Proof.
  intros Hrun Hret. use_inv Hrun.
  unfold returned in Hret. unfold ctl_inv in Hctl.
  destruct (cpc s); try discriminate Hret.
  inversion Hret. subst. exact Hctl.
Qed.

Lemma early_return_negative (e : env module_resolver) r : early_return e r -> r < 0.
Proof.
  unfold early_return, EFAULT, EINVAL. intros [H | [H | H]]; lia.
Qed.

Ltac run_schedule :=
  cbv [Run.run Run.exec Run.step handle_wasm_run_code_step
       code_runner_inner_step signal_step ee_make_code_nx ee_make_code_x
       set_memory_nx set_memory_x sem_take sem_up goto wgoto set_req
       set_sem set_ret set_made_nx set_nx_pages emit cpc wpc req sem task_ret
       made_nx nx_pages trace user_req sess kthread_ok nx_pages0
       set_memory_nx_ok set_memory_x_ok code_executable init_state
       returned negb Run.run_outcome entry_offset].

(** The uninterrupted schedule on a ready session with an entry function
    that returns. *)
Lemma sched_normal_run (e : env module_resolver) rq v :
  user_req e = Some rq -> param_count rq = 0 ->
  ready (sess e) <> 0 -> kthread_ok e = true -> code_x0 e = true ->
  ee_call0 (ee (sess e)) (entry_offset rq) = Some v ->
  run e sched_normal =
  Some (mk_state (C_returned 0) W_exit_done (Some rq) (Some O) (Some v)
          false (nx_pages0 e)
          [EvLogResult (Some v); EvFinished; EvStore v;
           EvCall (entry_offset rq); EvStarted]).
Proof.
  intros Hu Hp Hready Hk Hx Hcall.
  apply Z.eqb_neq in Hready. apply Z.eqb_eq in Hp.
  destruct e as [ss ur k nx0 nok xok kr]. unfold code_x0 in Hx.
  simpl in *. subst ur k.
  unfold sched_normal. run_schedule.
  rewrite Hready, Hp, Hx. destruct rq as [off pc]. simpl in *.
  rewrite Hcall. reflexivity.
Qed.

(** The interrupted schedule for a request with a nonzero parameter
    count. *)
Lemma sched_invalid_run (e : env module_resolver) rq :
  user_req e = Some rq -> param_count rq <> 0 ->
  ready (sess e) <> 0 -> kthread_ok e = true ->
  run e sched_invalid =
  Some (mk_state (C_returned 0) W_exit_invalid (Some rq) (Some O) None
          true (nx_pages_restored e)
          [EvSetMemoryX (code (ee (sess e))) (ee_code_pages (ee (sess e)));
           EvLogResult None;
           EvSetMemoryNX (code (ee (sess e))) (ee_code_pages (ee (sess e)));
           EvInvalidParam; EvStarted]).
Proof.
  intros Hu Hp Hready Hk.
  apply Z.eqb_neq in Hready. apply Z.eqb_neq in Hp.
  destruct e as [ss ur k nx0 nok xok kr]. simpl in *. subst ur k.
  unfold sched_invalid. run_schedule.
  rewrite Hready, Hp. reflexivity.
Qed.

(** C8. In every run, no "finished" release precedes the "started"
    release.  Whenever "finished" has been signalled, the events of the task
    body are, in this order: the "started" release, the entry-point call,
    the call's return with its value stored in the result slot, and the
    "finished" release.  Every normally completing run (the handler returns
    0 and its wait was not interrupted) has signalled "finished". *)
Theorem handshake_started_before_finished
    (e : env module_resolver) (ls : list label) (s : state) :
  run e ls = Some s ->
  ~ before EvFinished EvStarted (history s) /\
  (In EvFinished (history s) ->
     exists rq v,
       user_req e = Some rq /\
       ee_call0 (ee (sess e)) (entry_offset rq) = Some v /\
       task_ret s = Some v /\
       List.filter is_worker_event (history s) =
         [EvStarted; EvCall (entry_offset rq); EvStore v; EvFinished] /\
       before EvStarted (EvCall (entry_offset rq)) (history s) /\
       before (EvCall (entry_offset rq)) (EvStore v) (history s) /\
       before (EvStore v) EvFinished (history s)) /\
  (returned s = Some 0 -> made_nx s = false -> In EvFinished (history s)).
Proof.
  intros Hrun.
  pose proof (worker_history_shape e ls s Hrun) as Hshape.
  split; [| split].
  - intros Hb.
    apply (before_filter is_worker_event) in Hb; [| reflexivity | reflexivity].
    inversion Hshape as [ Hr Hl | Hr Hl | rq Hu Hp Hr Hl | rq Hu Hp Hr Hl
                        | rq Hu Hp Hr Hl | rq v Hu Hp Hc Hr Hw Hl
                        | rq v Hu Hp Hc Hr Hw Hl ];
      rewrite <- Hl in Hb; refute_before Hb.
  - intros Hin.
    assert (Hinw : In EvFinished (List.filter is_worker_event (history s))).
    { apply List.filter_In. split; [exact Hin | reflexivity]. }
    inversion Hshape as [ Hr Hl | Hr Hl | rq Hu Hp Hr Hl | rq Hu Hp Hr Hl
                        | rq Hu Hp Hr Hl | rq v Hu Hp Hc Hr Hw Hl
                        | rq v Hu Hp Hc Hr Hw Hl ];
      rewrite <- Hl in Hinw; simpl in Hinw;
      try solve [intuition discriminate].
    exists rq, v. repeat split; try assumption.
    + apply (before_of_filter is_worker_event). rewrite <- Hl.
      exists [], [], [EvStore v; EvFinished]. reflexivity.
    + apply (before_of_filter is_worker_event). rewrite <- Hl.
      exists [EvStarted], [], [EvFinished]. reflexivity.
    + apply (before_of_filter is_worker_event). rewrite <- Hl.
      exists [EvStarted; EvCall (entry_offset rq)], [], []. reflexivity.
  - intros Hret Hnx.
    destruct (returned_cases e ls s 0 Hrun Hret)
      as [(_ & Hearly & _) | ((_ & Hdone & _) & _)].
    + apply early_return_negative in Hearly. lia.
    + specialize (Hdone Hnx). use_inv Hrun.
      unfold wrk_inv in Hwrk. rewrite Hdone in Hwrk.
      destruct Hwrk as (rq & v & _ & _ & _ & _ & Hl).
      unfold history. apply List.in_rev. rewrite List.rev_involutive.
      assert (Hinw : In EvFinished (worker_trace s))
        by (rewrite Hl; left; reflexivity).
      apply List.filter_In in Hinw. tauto.
Qed.

(** C5. After the cleanup phase of every run (the drain loop has been left,
    whether or not a "finished" release raced with forced termination) the
    handshake semaphore has count zero, the worker has exited and can
    release nothing more; the handler never returns with a positive count;
    and every run can be continued to the handler's return. *)
Theorem semaphore_drained_after_cleanup
    (e : env module_resolver) (ls : list label) (s : state) :
  run e ls = Some s ->
  (cleaned_up s ->
     sem s = Some O /\ exited (wpc s) = true /\
     code_runner_inner_step ee_call0 e s = None) /\
  (forall r, returned s = Some r -> sem s = Some O \/ sem s = None) /\
  (exists ls' s' r, run e (ls ++ ls') = Some s' /\ returned s' = Some r).
Proof.
  intros Hrun. split; [| split].
  - intros Hclean.
    assert (Hreap : sem s = Some O /\ exited (wpc s) = true).
    { use_inv Hrun. unfold ctl_inv in Hctl.
      destruct Hclean as [Hc | [r [Hc Hw]]]; rewrite Hc in Hctl.
      - destruct Hctl as [[Hex _] Hsem]. split; assumption.
      - destruct Hctl as [(Hnone & _) | ([Hex _] & Hsem & _)].
        + contradiction.
        + split; assumption. }
    destruct Hreap as [Hsem Hex]. repeat split; try assumption.
    unfold code_runner_inner_step. destruct (wpc s); try discriminate Hex;
      reflexivity.
  - intros r Hret.
    destruct (returned_cases e ls s r Hrun Hret)
      as [(_ & _ & _ & [Hs | Hs]) | (_ & Hs & _)]; tauto.
  - exact (run_can_return _ ee_call0 e ls s Hrun).
Qed.

(** C4. For a session whose code buffer is executable on entry, and when
    the kernel's [set_memory_x] succeeds: whenever the run operation
    returns, after an interrupted wait ([made_nx]) or not, the set of pages
    without execute permission is the one of the entry, so the code buffer
    is executable again.  After an interrupted wait the calls that changed
    the protection are exactly [set_memory_nx] and then [set_memory_x], on
    the same address and the same number of pages; otherwise there is no
    such call.  Between the two calls, when [set_memory_nx] succeeded on a
    page-aligned buffer, every page of the buffer is without execute
    permission, so that a worker still inside the entry code of a buffer
    that is not empty is killed by its next step.  An interrupted run can
    always be continued to the handler's return, where the protection of
    the entry is back. *)
Theorem code_buffer_protection_restored
    (e : env module_resolver) (ls : list label) (s : state) :
  is_u32 (code_len (ee (sess e))) ->
  code_x0 e = true ->
  set_memory_x_ok e = true ->
  run e ls = Some s ->
  (forall r, returned s = Some r ->
     nx_pages s = nx_pages0 e /\
     code_executable e s = true /\
     (made_nx s = true ->
        List.filter is_protection_event (history s) =
          [EvSetMemoryNX (code (ee (sess e))) (ee_code_pages (ee (sess e)));
           EvSetMemoryX (code (ee (sess e))) (ee_code_pages (ee (sess e)))] /\
        before
          (EvSetMemoryNX (code (ee (sess e))) (ee_code_pages (ee (sess e))))
          (EvSetMemoryX (code (ee (sess e))) (ee_code_pages (ee (sess e))))
          (history s)) /\
     (made_nx s = false ->
        List.filter is_protection_event (history s) = [])) /\
  (made_nx s = true -> returned s = None ->
     set_memory_nx_ok e = true -> code (ee (sess e)) mod 4096 = 0 ->
     (forall p, p ∈ buffer_pages (ee (sess e)) -> p ∈ nx_pages s) /\
     (0 < code_len (ee (sess e)) ->
        code_executable e s = false /\
        (wpc s = W_call ->
           exists s', code_runner_inner_step ee_call0 e s = Some s' /\
                      wpc s' = W_killed))) /\
  (made_nx s = true <->
   In (EvSetMemoryNX (code (ee (sess e))) (ee_code_pages (ee (sess e))))
      (history s)) /\
  (made_nx s = true ->
     exists ls' s' r, run e (ls ++ ls') = Some s' /\ returned s' = Some r /\
                      made_nx s' = true /\ nx_pages s' = nx_pages0 e).
Proof.
  intros Hlen Hx0 Hxok Hrun.
  set (nx := EvSetMemoryNX (code (ee (sess e))) (ee_code_pages (ee (sess e)))).
  set (x := EvSetMemoryX (code (ee (sess e))) (ee_code_pages (ee (sess e)))).
  assert (Hreturned : forall l' s' r',
    run e l' = Some s' -> returned s' = Some r' ->
    nx_pages s' = nx_pages0 e /\
    code_executable e s' = true /\
    (made_nx s' = true ->
       List.filter is_protection_event (history s') = [nx; x] /\
       before nx x (history s')) /\
    (made_nx s' = false ->
       List.filter is_protection_event (history s') = [])).
  { clear ls s Hrun. intros ls s r Hrun Hret. use_inv Hrun.
    unfold prot_inv in Hprot. unfold returned in Hret.
    destruct (cpc s) eqn:Hc; try discriminate Hret.
    assert (Hpages : nx_pages s = nx_pages0 e).
    { destruct (made_nx s); destruct Hprot as [Hx _]; rewrite Hx;
        [apply nx_pages_restored_eq; assumption | reflexivity]. }
    split; [exact Hpages |]. split.
    { unfold code_executable. rewrite Hpages. exact Hx0. }
    rewrite protection_history.
    destruct (made_nx s); destruct Hprot as [_ Hp]; rewrite Hp;
      fold nx; fold x; simpl.
    - split; [| intros H; discriminate H].
      intros _. split; [reflexivity |].
      apply (before_of_filter is_protection_event).
      rewrite protection_history, Hp. fold nx. fold x. simpl.
      exists [], [], []. reflexivity.
    - split; [intros H; discriminate H |]. intros _. reflexivity. }
  assert (Hiff : made_nx s = true <-> In nx (history s)).
  { use_inv Hrun. unfold prot_inv in Hprot.
    rewrite (in_history_protection nx s eq_refl).
    destruct (made_nx s).
    - split; [intros _ | reflexivity].
      destruct (cpc s); destruct Hprot as [_ Hp]; rewrite Hp; fold nx;
        simpl; tauto.
    - destruct Hprot as [_ Hp]. rewrite Hp. simpl.
      split; [intros H; discriminate H | intros []]. }
  split; [| split; [| split]].
  - intros r Hret. exact (Hreturned ls s r Hrun Hret).
  - intros Hnx Hret Hnok Hal.
    assert (Hall : forall p, p ∈ buffer_pages (ee (sess e)) ->
                             p ∈ nx_pages s).
    { intros p Hp. use_inv Hrun.
      unfold prot_inv in Hprot. rewrite Hnx in Hprot.
      unfold returned in Hret.
      destruct (cpc s); try discriminate Hret;
        destruct Hprot as [Hpages _]; rewrite Hpages;
        apply nx_pages_revoked_covers; assumption. }
    split; [exact Hall |]. intros Hpos.
    assert (Hexec : code_executable e s = false).
    { unfold code_executable. apply bool_decide_eq_false. intros Hdisj.
      pose proof (first_page_in_buffer _ (ee (sess e)) Hpos) as Hfirst.
      exact (Hdisj _ Hfirst (Hall _ Hfirst)). }
    split; [exact Hexec |]. intros Hw.
    unfold code_runner_inner_step. rewrite Hw, Hexec.
    eexists. split; reflexivity.
  - exact Hiff.
  - intros Hnx.
    destruct (run_can_return _ ee_call0 e ls s Hrun)
      as (ls' & s' & r & Hrun' & Hret').
    exists ls', s', r. split; [exact Hrun' |]. split; [exact Hret' |].
    destruct (Hreturned _ s' r Hrun' Hret') as (Hpages & _).
    split; [| exact Hpages].
    assert (Hin : In nx (history s')).
    { unfold Run.run in Hrun, Hrun'.
      rewrite (exec_app _ ee_call0), Hrun in Hrun'.
      apply (history_grows _ ee_call0 e ls' s s' Hrun').
      apply Hiff. exact Hnx. }
    use_inv Hrun'. unfold prot_inv in Hprot.
    rewrite (in_history_protection nx s' eq_refl) in Hin.
    destruct (made_nx s'); [reflexivity |].
    destruct Hprot as [_ Hp]. rewrite Hp in Hin. contradiction.
Qed.

(** Every value the handler can return, and why. *)
Lemma run_return_values (e : env module_resolver) ls s r :
  run e ls = Some s -> returned s = Some r ->
  r = 0 \/ early_return e r.
Proof.
  intros Hrun Hret.
  destruct (returned_cases e ls s r Hrun Hret)
    as [(_ & He & _) | (_ & _ & H0)]; tauto.
Qed.

Lemma started_run_returns (e : env module_resolver) ls s r :
  run e ls = Some s -> returned s = Some r ->
  user_req e <> None -> ready (sess e) <> 0 -> kthread_ok e = true ->
  reaped s /\ sem s = Some O /\ r = 0.
Proof.
  intros Hrun Hret Hu Hr Hk.
  destruct (returned_cases e ls s r Hrun Hret)
    as [(_ & He & _) | Hmain]; [| exact Hmain].
  unfold early_return in He.
  destruct He as [[_ H] | [(_ & _ & H) | (_ & _ & _ & H)]]; congruence.
Qed.

(** C2, as amended. On a ready session whose worker was started, the run
    operation returns the status 0 to its caller whenever it returns, after
    a normal completion and after a forced cancellation alike.  After a
    normal completion the 64-bit value produced by the entry function is
    in the task's result slot and has been written to the kernel log; it is
    not part of what the caller receives.  Such a normal completion exists
    whenever the entry function returns: the schedule [sched_normal]. *)
Theorem run_returns_status_only
    (e : env module_resolver) (ls : list label) (s : state) (r : Z)
    (rq : run_code_request) :
  run e ls = Some s -> returned s = Some r ->
  user_req e = Some rq -> ready (sess e) <> 0 -> kthread_ok e = true ->
  r = 0 /\
  (made_nx s = false ->
     exists v, ee_call0 (ee (sess e)) (entry_offset rq) = Some v /\
               task_ret s = Some v /\
               In (EvLogResult (Some v)) (history s)) /\
  (forall v, param_count rq = 0 -> code_x0 e = true ->
     ee_call0 (ee (sess e)) (entry_offset rq) = Some v ->
     exists s', run e sched_normal = Some s' /\ made_nx s' = false /\
                task_ret s' = Some v /\ returned s' = Some 0).
Proof.
  intros Hrun Hret Hu Hr Hk.
  destruct (started_run_returns e ls s r Hrun Hret) as ((_ & Hd & Hlog) & _ & H0);
    try assumption; [congruence |].
  split; [exact H0 |]. split.
  2:{ intros v Hp Hx Hcall.
      rewrite (sched_normal_run e rq v Hu Hp Hr Hk Hx Hcall).
      eexists. split; [reflexivity |]. repeat split; reflexivity. }
  intros Hnx. specialize (Hd Hnx). specialize (Hlog Hd).
  pose proof (worker_request e ls s Hrun) as Hrq.
  use_inv Hrun. unfold wrk_inv in Hwrk. rewrite Hd in Hwrk.
  destruct Hwrk as (rq' & v & Hq & _ & Hcall & Htr & _).
  rewrite Hrq in Hq by (rewrite Hd; discriminate).
  assert (rq' = rq) by congruence. subst rq'.
  exists v. repeat split; try assumption.
  unfold history. rewrite <- List.in_rev. rewrite <- Htr. exact Hlog.
Qed.

(** What the code does with a request whose parameter count is nonzero:
    the entry-point call is never performed, "finished" is never signalled
    and the result slot is never written.  The request is not refused: on a
    ready session whose worker was started the handler returns 0 whenever it
    returns, and it does return under the schedule [sched_invalid]. *)
Lemma run_nonzero_param_count_no_call
    (e : env module_resolver) (ls : list label) (s : state)
    (rq : run_code_request) :
  user_req e = Some rq -> param_count rq <> 0 -> run e ls = Some s ->
  (forall offset, ~ In (EvCall offset) (history s)) /\
  ~ In EvFinished (history s) /\
  task_ret s = None /\
  (forall r, returned s = Some r ->
     ready (sess e) <> 0 -> kthread_ok e = true ->
     r = 0 /\ In EvInvalidParam (history s)) /\
  (ready (sess e) <> 0 -> kthread_ok e = true ->
   run_outcome e sched_invalid = Some 0).
Proof.
  intros Hu Hp Hrun.
  pose proof (worker_history_shape e ls s Hrun) as Hshape.
  assert (Hcases :
    task_ret s = None /\
    (List.filter is_worker_event (history s) = [] \/
     List.filter is_worker_event (history s) = [EvStarted] \/
     List.filter is_worker_event (history s) = [EvStarted; EvInvalidParam])).
  { inversion Hshape as [ Hr Hl | Hr Hl | rq' Hu' Hp' Hr Hl | rq' Hu' Hp' Hr Hl
                        | rq' Hu' Hp' Hr Hl | rq' v Hu' Hp' Hc Hr Hw Hl
                        | rq' v Hu' Hp' Hc Hr Hw Hl ];
      try (assert (rq' = rq) by congruence; subst rq'; contradiction);
      split; try assumption; tauto. }
  destruct Hcases as [Hret Hlist].
  assert (Hno : forall ev, is_worker_event ev = true ->
                ev <> EvStarted -> ev <> EvInvalidParam ->
                ~ In ev (history s)).
  { intros ev Hw H1 H2 Hin.
    assert (Hinw : In ev (List.filter is_worker_event (history s)))
      by (apply List.filter_In; split; assumption).
    destruct Hlist as [Hl | [Hl | Hl]]; rewrite Hl in Hinw; simpl in Hinw;
      intuition congruence. }
  split; [| split; [| split; [| split]]].
  - intros offset. apply Hno; [reflexivity | discriminate | discriminate].
  - apply Hno; [reflexivity | discriminate | discriminate].
  - exact Hret.
  - intros r Hr Hready Hk.
    destruct (started_run_returns e ls s r Hrun Hr)
      as ((Hex & Hd & _) & _ & H0); try assumption; [congruence |].
    split; [exact H0 |].
    pose proof (worker_request e ls s Hrun) as Hrq.
    use_inv Hrun. unfold wrk_inv in Hwrk.
    destruct (wpc s) eqn:Hw; try discriminate Hex;
      rewrite Hrq in Hwrk by discriminate.
    + destruct Hwrk as (rq' & _ & _ & _ & Hl).
      unfold history. rewrite <- List.in_rev.
      assert (Hinw : In EvInvalidParam (worker_trace s))
        by (rewrite Hl; left; reflexivity).
      apply List.filter_In in Hinw. tauto.
    + destruct Hwrk as (rq' & v & Hq & Hz & _).
      assert (rq' = rq) by congruence. subst rq'. contradiction.
    + destruct Hwrk as (rq' & Hq & Hz & _).
      assert (rq' = rq) by congruence. subst rq'. contradiction.
  - intros Hready Hk. unfold Run.run_outcome.
    rewrite (sched_invalid_run e rq Hu Hp Hready Hk). reflexivity.
Qed.

(** With a nonzero parameter count the second release never comes: the
    handler gets past its second wait only by being interrupted. *)
Lemma run_nonzero_param_count_needs_signal
    (e : env module_resolver) ls s r rq :
  user_req e = Some rq -> param_count rq <> 0 ->
  ready (sess e) <> 0 -> kthread_ok e = true ->
  run e ls = Some s -> returned s = Some r -> made_nx s = true.
Proof.
  intros Hu Hp Hready Hk Hrun Hr.
  destruct (started_run_returns e ls s r Hrun Hr)
    as ((_ & Hd & _) & _ & _); try assumption; [congruence |].
  destruct (made_nx s) eqn:Hnx; [reflexivity |].
  specialize (Hd eq_refl).
  pose proof (worker_request e ls s Hrun) as Hrq.
  use_inv Hrun. unfold wrk_inv in Hwrk. rewrite Hd in Hwrk.
  destruct Hwrk as (rq' & v & Hq & Hz & _).
  rewrite Hrq in Hq by (rewrite Hd; discriminate).
  assert (rq' = rq) by congruence. subst rq'. contradiction.
Qed.

End RunTheorems.

(** ** Concrete runs *)

Section RunExamples.

Local Abbreviation ex_run := (Run.run ex_call0).
Local Abbreviation ex_outcome := (Run.run_outcome ex_call0).

Example normal_run_history :
  option_map history (ex_run (ex_env 0 0) sched_normal)
  = Some [EvStarted; EvCall 0; EvStore 42; EvFinished; EvLogResult (Some 42)].
Proof. reflexivity. Qed.

Example forced_run_history :
  option_map history (ex_run (ex_env 16 0) sched_forced)
  = Some [EvStarted; EvCall 16; EvSetMemoryNX 8192 1; EvFault; EvLogBad 11;
          EvSetMemoryX 8192 1].
Proof. reflexivity. Qed.

Example race_run_history :
  option_map history (ex_run (ex_env 0 0) sched_race)
  = Some [EvStarted; EvCall 0; EvStore 42; EvSetMemoryNX 8192 1; EvFinished;
          EvLogResult (Some 42); EvSetMemoryX 8192 1].
Proof. reflexivity. Qed.

Example invalid_run_history :
  option_map history (ex_run (ex_env 0 1) sched_invalid)
  = Some [EvStarted; EvInvalidParam; EvSetMemoryNX 8192 1; EvLogResult None;
          EvSetMemoryX 8192 1].
Proof. reflexivity. Qed.

(** After the signal and [ee_make_code_nx] the page of the code is without
    execute permission, and [ee_make_code_x] gives it back. *)
Example forced_run_pages :
  option_map nx_pages
    (ex_run (ex_env 16 0)
       [Ctl; Ctl; Ctl; Ctl; Ctl; Wrk; Wrk; Ctl; Wrk; Wrk; Sig; Ctl])
  = Some {[ 2 ]} /\
  option_map nx_pages (ex_run (ex_env 16 0) sched_forced) = Some ∅.
Proof. split; reflexivity. Qed.

(** The controller cannot pass its first wait before the worker's first
    release, and a signal does not wake [down]. *)
Example first_wait_blocks :
  ex_run (ex_env 0 0) [Ctl; Ctl; Ctl; Ctl; Ctl; Ctl] = None.
Proof. reflexivity. Qed.

Example first_wait_ignores_signal :
  ex_run (ex_env 0 0) [Ctl; Ctl; Ctl; Ctl; Ctl; Sig] = None.
Proof. reflexivity. Qed.

(** With a nonzero parameter count the second wait stays blocked. *)
Example invalid_run_blocks :
  ex_run (ex_env 0 1) [Ctl; Ctl; Ctl; Ctl; Ctl; Wrk; Wrk; Ctl; Ctl] = None.
Proof. reflexivity. Qed.

Example not_ready_run :
  ex_outcome (mk_env (mk_privileged_session 0 ex_engine)
                     (Some (mk_run_code_request 0 0)) true ∅ true true 11)
             [Ctl; Ctl]
  = Some (- EINVAL).
Proof. reflexivity. Qed.

(** C2, counterexample. On a ready session the entry function at offset 0
    completes normally and produces 42, and the one at offset 8 produces 7;
    in both runs the caller receives 0, so the value is not delivered.  The
    forcibly cancelled run of the looping entry at offset 16 also hands the
    caller 0: cancellation is not a distinct outcome. *)
Lemma run_output_counterexample :
  option_map task_ret (ex_run (ex_env 0 0) sched_normal) = Some (Some 42) /\
  option_map made_nx (ex_run (ex_env 0 0) sched_normal) = Some false /\
  ex_outcome (ex_env 0 0) sched_normal = Some 0 /\
  option_map task_ret (ex_run (ex_env 8 0) sched_normal) = Some (Some 7) /\
  ex_outcome (ex_env 8 0) sched_normal = Some 0 /\
  option_map made_nx (ex_run (ex_env 16 0) sched_forced) = Some true /\
  option_map wpc (ex_run (ex_env 16 0) sched_forced) = Some W_killed /\
  ex_outcome (ex_env 16 0) sched_forced = ex_outcome (ex_env 0 0) sched_normal /\
  ~ (forall e ls s r v,
       ex_run e ls = Some s -> ready (sess e) <> 0 ->
       returned s = Some r -> made_nx s = false -> task_ret s = Some v ->
       r = v).
Proof.
  repeat split; try reflexivity.
  intros Hall.
  specialize (Hall (ex_env 0 0) sched_normal final_normal 0 42).
  assert (H042 : 0 = 42); [| discriminate H042].
  apply Hall; try reflexivity. simpl. discriminate.
Qed.

Example normal_run_final : ex_run (ex_env 0 0) sched_normal = Some final_normal.
Proof. reflexivity. Qed.

Example forced_run_final : ex_run (ex_env 16 0) sched_forced = Some final_forced.
Proof. reflexivity. Qed.

Example race_run_final : ex_run (ex_env 0 0) sched_race = Some final_race.
Proof. reflexivity. Qed.

Example invalid_run_final :
  ex_run (ex_env 0 1) sched_invalid = Some final_invalid.
Proof. reflexivity. Qed.

Lemma run_returns_status_only_witness :
  0 = 0 /\
  (made_nx final_normal = false ->
     exists v, ex_call0 (ee (sess (ex_env 0 0))) 0 = Some v /\
               task_ret final_normal = Some v /\
               In (EvLogResult (Some v)) (history final_normal)) /\
  (forall v, 0 = 0 -> code_x0 (ex_env 0 0) = true ->
     ex_call0 (ee (sess (ex_env 0 0))) 0 = Some v ->
     exists s', ex_run (ex_env 0 0) sched_normal = Some s' /\
                made_nx s' = false /\
                task_ret s' = Some v /\ returned s' = Some 0).
Proof.
  apply (run_returns_status_only unit ex_call0 (ex_env 0 0) sched_normal
           final_normal 0 (mk_run_code_request 0 0)).
  - reflexivity.
  - reflexivity.
  - reflexivity.
  - simpl. lia.
  - reflexivity.
Defined.

Lemma code_buffer_protection_restored_witness :
  (forall r, returned final_forced = Some r ->
     nx_pages final_forced = nx_pages0 (ex_env 16 0) /\
     code_executable (ex_env 16 0) final_forced = true /\
     (made_nx final_forced = true ->
        List.filter is_protection_event (history final_forced)
          = [EvSetMemoryNX 8192 (ee_code_pages ex_engine);
             EvSetMemoryX 8192 (ee_code_pages ex_engine)] /\
        before (EvSetMemoryNX 8192 (ee_code_pages ex_engine))
               (EvSetMemoryX 8192 (ee_code_pages ex_engine))
               (history final_forced)) /\
     (made_nx final_forced = false ->
        List.filter is_protection_event (history final_forced) = [])) /\
  (made_nx final_forced = true -> returned final_forced = None ->
     set_memory_nx_ok (ex_env 16 0) = true -> 8192 mod 4096 = 0 ->
     (forall p, p ∈ buffer_pages ex_engine -> p ∈ nx_pages final_forced) /\
     (0 < 4096 ->
        code_executable (ex_env 16 0) final_forced = false /\
        (wpc final_forced = W_call ->
           exists s',
             code_runner_inner_step ex_call0 (ex_env 16 0) final_forced
             = Some s' /\
             wpc s' = W_killed))) /\
  (made_nx final_forced = true <->
   In (EvSetMemoryNX 8192 (ee_code_pages ex_engine)) (history final_forced)) /\
  (made_nx final_forced = true ->
     exists ls' s' r,
       ex_run (ex_env 16 0) (sched_forced ++ ls') = Some s' /\
       returned s' = Some r /\ made_nx s' = true /\
       nx_pages s' = nx_pages0 (ex_env 16 0)).
Proof.
  apply (code_buffer_protection_restored unit ex_call0 (ex_env 16 0)
           sched_forced final_forced).
  - unfold is_u32. simpl. vm_compute. split; [discriminate | reflexivity].
  - reflexivity.
  - reflexivity.
  - reflexivity.
Defined.

Example ex_code_pages :
  ee_code_pages ex_engine = 1 /\ buffer_pages ex_engine = {[ 2 ]} /\
  page_range (code ex_engine) (ee_code_pages ex_engine) = {[ 2 ]}.
Proof. repeat split; reflexivity. Qed.

Lemma semaphore_drained_after_cleanup_witness :
  (cleaned_up final_race ->
     sem final_race = Some O /\ exited (wpc final_race) = true /\
     code_runner_inner_step ex_call0 (ex_env 0 0) final_race = None) /\
  (forall r, returned final_race = Some r ->
     sem final_race = Some O \/ sem final_race = None) /\
  (exists ls' s' r,
     ex_run (ex_env 0 0) (sched_race ++ ls') = Some s' /\
     returned s' = Some r).
Proof.
  apply (semaphore_drained_after_cleanup unit ex_call0 (ex_env 0 0)
           sched_race final_race).
  reflexivity.
Defined.

Example race_is_cleaned_up : cleaned_up final_race.
Proof. right. exists 0. split; [reflexivity | discriminate]. Qed.

Lemma handshake_started_before_finished_witness :
  ~ before EvFinished EvStarted (history final_normal) /\
  (In EvFinished (history final_normal) ->
     exists rq v,
       user_req (ex_env 0 0) = Some rq /\
       ex_call0 (ee (sess (ex_env 0 0))) (entry_offset rq) = Some v /\
       task_ret final_normal = Some v /\
       List.filter is_worker_event (history final_normal) =
         [EvStarted; EvCall (entry_offset rq); EvStore v; EvFinished] /\
       before EvStarted (EvCall (entry_offset rq)) (history final_normal) /\
       before (EvCall (entry_offset rq)) (EvStore v) (history final_normal) /\
       before (EvStore v) EvFinished (history final_normal)) /\
  (returned final_normal = Some 0 -> made_nx final_normal = false ->
   In EvFinished (history final_normal)).
Proof.
  apply (handshake_started_before_finished unit ex_call0 (ex_env 0 0)
           sched_normal final_normal).
  reflexivity.
Defined.

(** In the race, one release is still on the semaphore when the drain
    loop starts, and the loop removes it. *)
Example race_leaves_one_release :
  option_map sem
    (ex_run (ex_env 0 0)
       [Ctl; Ctl; Ctl; Ctl; Ctl; Wrk; Wrk; Ctl; Wrk; Sig; Ctl; Wrk; Ctl; Ctl])
  = Some (Some 1%nat).
Proof. reflexivity. Qed.

End RunExamples.

(** * Registration of the control device *)

Section UapiFacts.

Local Abbreviation init_ret k g := (fst (fst (uapi_init k g))).
Local Abbreviation init_globals k g := (snd (fst (uapi_init k g))).
Local Abbreviation init_calls k g := (snd (uapi_init k g)).

Lemma PTR_ERR_negative p :
  is_ulong p -> IS_ERR p = true -> - MAX_ERRNO <= PTR_ERR p < 0.
Proof.
  unfold is_ulong, ULONG_MAX, IS_ERR, PTR_ERR, MAX_ERRNO.
  rewrite ulong_mod_eq. intros Hp He. apply Z.leb_le in He.
  destruct (Z.ltb_spec p (2 ^ 63)) as [Hlt | Hge]; lia.
Qed.

Lemma release_head r held : release r (r :: held) = release r held.
Proof.
  unfold release. simpl.
  assert (Hrefl : resource_eqb r r = true).
  { destruct r; simpl; rewrite ?Z.eqb_refl; reflexivity. }
  rewrite Hrefl. reflexivity.
Qed.

Ltac uapi_cases k :=
  unfold uapi_init, all_created, typed_results in *;
  destruct (register_chrdev_result k <? 0) eqn:Hlt;
  [apply Z.ltb_lt in Hlt as Hlt' | apply Z.ltb_ge in Hlt as Hlt'];
  destruct (IS_ERR (class_create_result k)) eqn:Hc;
  destruct (IS_ERR (device_create_result k)) eqn:Hd;
  simpl in *; rewrite ?Hlt, ?Hc, ?Hd; simpl.

(** X1. [uapi_init] returns 0 exactly when the three creating calls all
    succeed.  Otherwise it returns the negative error code of the first
    call that fails: the result of [register_chrdev]; else [PTR_ERR] of the
    class; else [PTR_ERR] of the device.  Every object created before the
    failure has been released again, [uapi_initialized] keeps its value, and
    a later [uapi_cleanup] on a module that was never initialised makes no
    call. *)
Theorem uapi_init_failure_releases_all (k : kernel_results) (g : globals) :
  typed_results k ->
  (init_ret k g = 0 <-> all_created k) /\
  (register_chrdev_result k < 0 ->
     init_ret k g = register_chrdev_result k) /\
  (0 <= register_chrdev_result k ->
   IS_ERR (class_create_result k) = true ->
     init_ret k g = PTR_ERR (class_create_result k)) /\
  (0 <= register_chrdev_result k ->
   IS_ERR (class_create_result k) = false ->
   IS_ERR (device_create_result k) = true ->
     init_ret k g = PTR_ERR (device_create_result k)) /\
  (~ all_created k -> init_ret k g < 0) /\
  (~ all_created k ->
     held_after [] (init_calls k g) = [] /\
     uapi_initialized (init_globals k g) = uapi_initialized g /\
     (uapi_initialized g = 0 ->
      snd (uapi_cleanup (init_globals k g)) = [])).
Proof.
  intros (Hreg & Hcls & Hdev).
  pose proof (PTR_ERR_negative _ Hcls) as Hpc.
  pose proof (PTR_ERR_negative _ Hdev) as Hpd.
  uapi_cases k.
  all: try specialize (Hpc eq_refl); try specialize (Hpd eq_refl).
  all: split; [| split; [| split; [| split; [| split]]]].
  (* the return value is 0 exactly on success *)
  all: try solve [ split; [intros H0; lia | intros (Ha & Hb & Hx);
                                            first [lia | discriminate]] ].
  all: try solve [ split; [intros _; repeat split; (lia || reflexivity)
                          | reflexivity] ].
  (* the error code is that of the first call that fails *)
  all: try solve [ intros; first [reflexivity | lia | discriminate] ].
  (* it is negative *)
  all: try solve [ intros Hn;
                   first [ exfalso; apply Hn; repeat split;
                           (lia || reflexivity)
                         | lia ] ].
  (* nothing is left registered *)
  all: intros Hn;
    try (exfalso; apply Hn; repeat split; (lia || reflexivity)).
  all: unfold release, uapi_cleanup; simpl;
    repeat (rewrite Z.eqb_refl; simpl).
  all: repeat split; try reflexivity.
  all: try (intros Hz; rewrite Hz; reflexivity).
Qed.

Lemma typed_ex_kernel_no_device : typed_results ex_kernel_no_device.
Proof. vm_compute. repeat split; discriminate. Qed.

Lemma uapi_init_failure_releases_all_witness :
  (init_ret ex_kernel_no_device globals0 = 0 <->
     all_created ex_kernel_no_device) /\
  (register_chrdev_result ex_kernel_no_device < 0 ->
     init_ret ex_kernel_no_device globals0
     = register_chrdev_result ex_kernel_no_device) /\
  (0 <= register_chrdev_result ex_kernel_no_device ->
   IS_ERR (class_create_result ex_kernel_no_device) = true ->
     init_ret ex_kernel_no_device globals0
     = PTR_ERR (class_create_result ex_kernel_no_device)) /\
  (0 <= register_chrdev_result ex_kernel_no_device ->
   IS_ERR (class_create_result ex_kernel_no_device) = false ->
   IS_ERR (device_create_result ex_kernel_no_device) = true ->
     init_ret ex_kernel_no_device globals0
     = PTR_ERR (device_create_result ex_kernel_no_device)) /\
  (~ all_created ex_kernel_no_device ->
     init_ret ex_kernel_no_device globals0 < 0) /\
  (~ all_created ex_kernel_no_device ->
     held_after [] (init_calls ex_kernel_no_device globals0) = [] /\
     uapi_initialized (init_globals ex_kernel_no_device globals0)
       = uapi_initialized globals0 /\
     (uapi_initialized globals0 = 0 ->
      snd (uapi_cleanup (init_globals ex_kernel_no_device globals0)) = [])).
Proof.
  apply (uapi_init_failure_releases_all ex_kernel_no_device globals0).
  vm_compute. repeat split; discriminate.
Defined.

(** X2. After a successful [uapi_init] the character device, the class and
    the device are registered and [uapi_initialized] is 1.  [uapi_cleanup]
    then releases all three with the identifiers under which they were
    created: the device and the character device by one call each, the
    class by two ([class_unregister] and [class_destroy]); it leaves the
    variables as they are, [uapi_initialized] included. *)
Theorem uapi_init_cleanup_round_trip (k : kernel_results) (g : globals) :
  all_created k ->
  let g' := init_globals k g in
  let cls := class_create_result k in
  let major := register_chrdev_result k in
  init_ret k g = 0 /\
  uapi_initialized g' = 1 /\
  held_after [] (init_calls k g)
    = [R_device cls (MKDEV major 0); R_class cls; R_chrdev major] /\
  held_after [] (init_calls k g ++ snd (uapi_cleanup g')) = [] /\
  release_count (R_device cls (MKDEV major 0)) (snd (uapi_cleanup g')) = 1%nat /\
  release_count (R_chrdev major) (snd (uapi_cleanup g')) = 1%nat /\
  release_count (R_class cls) (snd (uapi_cleanup g')) = 2%nat /\
  fst (uapi_cleanup g') = g'.
Proof.
  intros (Hreg & Hcls & Hdev). simpl.
  unfold uapi_init.
  assert (Hlt : (register_chrdev_result k <? 0) = false)
    by (apply Z.ltb_ge; exact Hreg).
  rewrite Hlt, Hcls, Hdev. simpl.
  unfold uapi_cleanup, release_count, release. simpl.
  rewrite ?Hlt, ?Hcls, ?Hdev. simpl.
  repeat (rewrite Z.eqb_refl; simpl).
  repeat split; reflexivity.
Qed.

Lemma uapi_init_cleanup_round_trip_witness :
  let g' := init_globals ex_kernel_ok globals0 in
  let cls := class_create_result ex_kernel_ok in
  let major := register_chrdev_result ex_kernel_ok in
  init_ret ex_kernel_ok globals0 = 0 /\
  uapi_initialized g' = 1 /\
  held_after [] (init_calls ex_kernel_ok globals0)
    = [R_device cls (MKDEV major 0); R_class cls; R_chrdev major] /\
  held_after [] (init_calls ex_kernel_ok globals0 ++ snd (uapi_cleanup g'))
    = [] /\
  release_count (R_device cls (MKDEV major 0)) (snd (uapi_cleanup g')) = 1%nat /\
  release_count (R_chrdev major) (snd (uapi_cleanup g')) = 1%nat /\
  release_count (R_class cls) (snd (uapi_cleanup g')) = 2%nat /\
  fst (uapi_cleanup g') = g'.
Proof.
  apply (uapi_init_cleanup_round_trip ex_kernel_ok globals0).
  vm_compute. repeat split; discriminate.
Defined.

Example uapi_init_ok :
  uapi_init ex_kernel_ok globals0
  = (0, mk_globals 240 18446612682070000000 18446612682070004096 1,
     [K_register_chrdev 240; K_class_create 18446612682070000000;
      K_device_create 18446612682070000000 251658240 18446612682070004096]).
Proof. vm_compute. reflexivity. Qed.

Example uapi_init_no_chrdev :
  uapi_init ex_kernel_no_chrdev globals0
  = (- 16, mk_globals (- 16) 0 0 0, [K_register_chrdev (- 16)]).
Proof. vm_compute. reflexivity. Qed.

Example uapi_init_no_class :
  init_calls ex_kernel_no_class globals0
  = [K_register_chrdev 240; K_class_create (ULONG_MOD - 12);
     K_unregister_chrdev 240].
Proof. vm_compute. reflexivity. Qed.

Example uapi_init_no_device :
  init_ret ex_kernel_no_device globals0 = - 12.
Proof. vm_compute. reflexivity. Qed.

Example uapi_cleanup_before_init : uapi_cleanup globals0 = (globals0, []).
Proof. reflexivity. Qed.

End UapiFacts.

(** * The life of a session *)

Section SessionLife.

Variable module_resolver : Type.
Variable load_code_request : Type.
Variable copy_load_request : Z -> option load_code_request.
Variable init_execution_engine :
  load_code_request -> execution_engine module_resolver ->
  Z * execution_engine module_resolver.
Variable run_handler :
  privileged_session module_resolver -> Z ->
  Z * execution_engine module_resolver.

Local Abbreviation ioctl :=
  (wd_ioctl copy_load_request init_execution_engine run_handler).
Local Abbreviation ioctls :=
  (ioctl_all copy_load_request init_execution_engine run_handler).
Local Abbreviation life :=
  (file_life copy_load_request init_execution_engine run_handler).

(** One ioctl call against the ready flag. *)
Lemma wd_ioctl_ready sess cmd arg :
  ready sess = 0 \/ ready sess = 1 ->
  let r := fst (ioctl sess cmd arg) in
  let sess' := snd (ioctl sess cmd arg) in
  (ready sess' = 0 \/ ready sess' = 1) /\
  ready sess' =
    ready sess + (if (cmd =? WASM_LOAD_CODE) && (r =? 0) then 1 else 0).
Proof.
  intros Hr. unfold wd_ioctl.
  destruct (cmd =? WASM_LOAD_CODE) eqn:Hl; simpl.
  - destruct Hr as [H0 | H1].
    + destruct (load_unloaded_cases _ _ copy_load_request
                  init_execution_engine sess arg H0)
        as [(_ & Hneg & Hz) | (_ & Hzero & Hone)].
      * rewrite Hz, H0.
        destruct (Z.eqb_spec
                    (fst (handle_wasm_load_code copy_load_request
                            init_execution_engine sess arg)) 0); lia.
      * rewrite Hone, Hzero, H0. simpl. lia.
    + unfold handle_wasm_load_code. rewrite H1. simpl. lia.
  - destruct (cmd =? WASM_RUN_CODE).
    + destruct (run_handler sess arg) as [r eng]. simpl. lia.
    + simpl. lia.
Qed.

Lemma ioctl_all_ready sess ops :
  ready sess = 0 \/ ready sess = 1 ->
  length (fst (ioctls sess ops)) = length ops /\
  (ready (snd (ioctls sess ops)) = 0 \/ ready (snd (ioctls sess ops)) = 1) /\
  ready (snd (ioctls sess ops)) =
    ready sess + Z.of_nat (load_successes ops (fst (ioctls sess ops))).
Proof.
  revert sess. induction ops as [| [cmd arg] ops IH]; intros sess Hr.
  - simpl. repeat split; [assumption | lia].
  - simpl.
    destruct (wd_ioctl_ready sess cmd arg Hr) as [Hr1 Heq1].
    destruct (ioctl sess cmd arg) as [r sess1] eqn:Hio. simpl in Hr1, Heq1.
    destruct (IH sess1 Hr1) as (Hlen & Hr2 & Heq2).
    destruct (ioctls sess1 ops) as [rs sess2]. simpl in *.
    split; [lia |]. split; [exact Hr2 |].
    rewrite Heq2, Heq1.
    destruct ((cmd =? WASM_LOAD_CODE) && (r =? 0)); lia.
Qed.

Lemma ioctl_all_loads_count
    (raw : privileged_session module_resolver) (ops : list (Z * Z)) :
  length (fst (ioctls (init_privileged_session raw) ops)) = length ops /\
  (load_successes ops (fst (ioctls (init_privileged_session raw) ops))
   <= 1)%nat /\
  ready (snd (ioctls (init_privileged_session raw) ops)) =
    Z.of_nat
      (load_successes ops (fst (ioctls (init_privileged_session raw) ops))).
Proof.
  destruct (ioctl_all_ready (init_privileged_session raw) ops)
    as (Hlen & Hr & Heq).
  - left. reflexivity.
  - simpl in Heq. repeat split; [exact Hlen | lia | lia].
Qed.

(** X3. On a session opened by [wd_open], after any sequence of ioctl calls
    (loads, runs, unknown commands) the ready flag equals the number of
    load commands that returned 0, and that number is at most one: a
    session is loaded at most once. *)
Theorem ioctl_all_loads_at_most_once
    (raw : privileged_session module_resolver) (ops : list (Z * Z)) :
  let sess := init_privileged_session raw in
  let rs := fst (ioctls sess ops) in
  let sess' := snd (ioctls sess ops) in
  length rs = length ops /\
  (load_successes ops rs <= 1)%nat /\
  ready sess' = Z.of_nat (load_successes ops rs).
Proof.
  simpl. exact (ioctl_all_loads_count raw ops).
Qed.

(** X4. Ready is final: on a ready session every load command returns
    [-EINVAL], every unknown command returns [-EINVAL], and a sequence of
    such commands leaves the session, its engine included, exactly as it
    was. *)
Theorem ioctl_all_ready_is_final
    (sess : privileged_session module_resolver) (ops : list (Z * Z)) :
  ready sess <> 0 ->
  Forall (fun op => fst op <> WASM_RUN_CODE) ops ->
  ioctls sess ops = (map (fun _ => - EINVAL) ops, sess).
Proof.
  intros Hr. induction ops as [| [cmd arg] ops IH]; intros Hall.
  - reflexivity.
  - inversion Hall as [| op ops' Hcmd Hrest]. subst. simpl in Hcmd.
    simpl. unfold wd_ioctl.
    assert (Hstep :
      (if cmd =? WASM_LOAD_CODE
       then handle_wasm_load_code copy_load_request init_execution_engine
              sess arg
       else if cmd =? WASM_RUN_CODE
            then let '(r, eng) := run_handler sess arg in
                 (r, mk_privileged_session (ready sess) eng)
            else (- EINVAL, sess)) = (- EINVAL, sess)).
    { destruct (cmd =? WASM_LOAD_CODE).
      - unfold handle_wasm_load_code.
        destruct (Z.eqb_spec (ready sess) 0); [contradiction | reflexivity].
      - destruct (Z.eqb_spec cmd WASM_RUN_CODE); [contradiction |].
        reflexivity. }
    rewrite Hstep, (IH Hrest). reflexivity.
Qed.

(** X5. A file that is opened, used for any sequence of ioctl calls and
    released: whatever the allocated block contained, the release destroys
    the execution engine exactly when a load command returned 0, destroys
    the engine the session then holds, and frees the session once, after
    that; without a successful load nothing is destroyed. *)
Theorem file_life_destroys_loaded_engine
    (raw : privileged_session module_resolver) (ops : list (Z * Z)) :
  let sess := init_privileged_session raw in
  let rs := fst (ioctls sess ops) in
  let sess' := snd (ioctls sess ops) in
  life (Some raw) ops =
    Some (rs,
          if Nat.eqb (load_successes ops rs) 1
          then [D_destroy_execution_engine (ee sess'); D_kfree sess']
          else [D_kfree sess']) /\
  (load_successes ops rs = 0%nat \/ load_successes ops rs = 1%nat).
Proof.
  simpl.
  destruct (ioctl_all_loads_count raw ops) as (Hlen & Hle & Heq).
  unfold file_life, wd_open, wd_release. simpl.
  destruct (ioctls (init_privileged_session raw) ops) as [rs sess'] eqn:Hio.
  simpl in *.
  assert (Hcases : load_successes ops rs = 0%nat \/
                   load_successes ops rs = 1%nat) by lia.
  split; [| exact Hcases].
  destruct Hcases as [H0 | H1].
  - rewrite H0 in *. simpl in Heq. rewrite Heq. reflexivity.
  - rewrite H1 in *. simpl in Heq. rewrite Heq. reflexivity.
Qed.

End SessionLife.

Section SessionLifeExamples.

Local Abbreviation ex_ioctls := (ioctl_all ex_copy_load ex_init ex_run_handler).
Local Abbreviation ex_life := (file_life ex_copy_load ex_init ex_run_handler).

Lemma ioctl_all_ready_is_final_witness :
  ex_ioctls ex_ready_session [(WASM_LOAD_CODE, 100); (9, 0); (WASM_LOAD_CODE, 0)]
  = (map (fun _ => - EINVAL)
         [(WASM_LOAD_CODE, 100); (9, 0); (WASM_LOAD_CODE, 0)],
     ex_ready_session).
Proof.
  apply (ioctl_all_ready_is_final unit Z ex_copy_load ex_init ex_run_handler
           ex_ready_session
           [(WASM_LOAD_CODE, 100); (9, 0); (WASM_LOAD_CODE, 0)]).
  - simpl. lia.
  - repeat constructor; simpl; discriminate.
Defined.

(** A failed load, a run before any load, a load, a second load. *)
Example life_with_retry :
  fst (ex_ioctls (init_privileged_session ex_raw_session)
         [(WASM_LOAD_CODE, 0); (WASM_RUN_CODE, 0); (WASM_LOAD_CODE, 100);
          (WASM_LOAD_CODE, 200)])
  = [- EFAULT; - EINVAL; 0; - EINVAL].
Proof. reflexivity. Qed.

Example life_without_load :
  option_map snd (ex_life (Some ex_raw_session) [(WASM_LOAD_CODE, 0)])
  = Some [D_kfree (init_privileged_session ex_raw_session)].
Proof. reflexivity. Qed.

Example life_with_load :
  option_map (fun r => length (snd r))
    (ex_life (Some ex_raw_session) [(WASM_LOAD_CODE, 100)])
  = Some 2%nat.
Proof. reflexivity. Qed.

Example open_without_memory :
  wd_open None (mk_file (Some ex_raw_session))
  = (- ENOMEM, mk_file (Some ex_raw_session)).
Proof. reflexivity. Qed.

End SessionLifeExamples.

(** * vm.h: more on page rounding and on the slice *)

Section PageRoundingMore.

Lemma round_up_in_range x :
  0 <= x <= ULONG_MAX - 4095 ->
  0 <= round_up_to_page_size x <= ULONG_MAX - 4095.
Proof.
  intros Hx. rewrite (round_up_to_page_size_eq x Hx).
  unfold ULONG_MAX in *. rewrite ulong_mod_eq in *.
  pose proof (Z.div_mod (x + 4095) 4096 ltac:(lia)) as Hdm.
  pose proof (Z.mod_pos_bound (x + 4095) 4096 ltac:(lia)) as Hmb.
  assert (Hq : (x + 4095) / 4096 < 4503599627370496).
  { apply Z.div_lt_upper_bound; lia. }
  assert (H0 : 0 <= (x + 4095) / 4096) by (apply Z.div_pos; lia).
  lia.
Qed.

(** X6. In its range [round_up_to_page_size] is idempotent, leaves exactly
    the multiples of 4096 fixed, and is monotone. *)
Theorem round_up_to_page_size_idempotent_monotone (x y : Z) :
  0 <= x <= ULONG_MAX - 4095 -> 0 <= y <= ULONG_MAX - 4095 ->
  round_up_to_page_size (round_up_to_page_size x) = round_up_to_page_size x /\
  (round_up_to_page_size x = x <-> x mod 4096 = 0) /\
  (x <= y -> round_up_to_page_size x <= round_up_to_page_size y).
Proof.
  intros Hx Hy.
  pose proof (round_up_in_range x Hx) as Hrx.
  rewrite (round_up_to_page_size_eq _ Hrx).
  rewrite (round_up_to_page_size_eq x Hx), (round_up_to_page_size_eq y Hy).
  pose proof (Z.div_mod (x + 4095) 4096 ltac:(lia)) as Hdm.
  pose proof (Z.mod_pos_bound (x + 4095) 4096 ltac:(lia)) as Hmb.
  pose proof (Z.div_mod x 4096 ltac:(lia)) as Hdx.
  pose proof (Z.mod_pos_bound x 4096 ltac:(lia)) as Hmx.
  split; [| split].
  - replace (4096 * ((x + 4095) / 4096) + 4095)
      with (4095 + ((x + 4095) / 4096) * 4096) by lia.
    rewrite Z.div_add by lia.
    rewrite (Z.div_small 4095 4096) by lia. lia.
  - split; intros H.
    + rewrite <- H. rewrite Z.mul_comm. apply Z.mod_mul. lia.
    + assert (Hq : (x + 4095) / 4096 = x / 4096).
      { symmetry. apply (Z.div_unique _ _ _ 4095); lia. }
      lia.
  - intros Hle.
    assert (Hq : (x + 4095) / 4096 <= (y + 4095) / 4096)
      by (apply Z.div_le_mono; lia).
    lia.
Qed.

Lemma round_up_to_page_size_idempotent_monotone_witness :
  round_up_to_page_size (round_up_to_page_size 5000)
    = round_up_to_page_size 5000 /\
  (round_up_to_page_size 5000 = 5000 <-> 5000 mod 4096 = 0) /\
  (5000 <= 8192 -> round_up_to_page_size 5000 <= round_up_to_page_size 8192).
Proof.
  apply (round_up_to_page_size_idempotent_monotone 5000 8192).
  - vm_compute. split; discriminate.
  - vm_compute. split; discriminate.
Defined.

(** X7. Past its range, for ULONG_MAX - 4095 < x <= ULONG_MAX, the sum
    x + 4095 wraps and [round_up_to_page_size x] is 0. *)
Theorem round_up_to_page_size_wraps_to_zero (x : Z) :
  ULONG_MAX - 4095 < x <= ULONG_MAX ->
  round_up_to_page_size x = 0.
Proof.
  intros Hx. unfold round_up_to_page_size.
  unfold ULONG_MAX in Hx.
  assert (Hw : to_ulong (x + 4095) = x + 4095 - ULONG_MOD).
  { unfold to_ulong. symmetry. apply (Z.mod_unique_pos _ _ 1).
    - rewrite ulong_mod_eq in *. lia.
    - lia. }
  rewrite Hw.
  rewrite land_page_mask by (rewrite ulong_mod_eq in *; lia).
  rewrite Z.div_small by (rewrite ulong_mod_eq in *; lia).
  reflexivity.
Qed.

Lemma round_up_to_page_size_wraps_to_zero_witness :
  round_up_to_page_size ULONG_MAX = 0.
Proof.
  apply (round_up_to_page_size_wraps_to_zero ULONG_MAX).
  vm_compute. split; [reflexivity | discriminate].
Defined.

(** X8. The page count that [ee_make_code_nx] and [ee_make_code_x] pass to
    the kernel covers the code and no page more: for a 32-bit [code_len],
    code_len <= 4096 * pages < code_len + 4096, at most 2^20 pages, and
    0 pages exactly for an empty code buffer. *)
Theorem ee_code_pages_cover
    (module_resolver : Type) (eng : execution_engine module_resolver) :
  is_u32 (code_len eng) ->
  code_len eng <= 4096 * ee_code_pages eng < code_len eng + 4096 /\
  0 <= ee_code_pages eng <= 2 ^ 20 /\
  (ee_code_pages eng = 0 <-> code_len eng = 0).
Proof.
  unfold is_u32, U32_MOD. intros Hl.
  unfold ee_code_pages.
  assert (Hr : 0 <= code_len eng <= ULONG_MAX - 4095).
  { unfold ULONG_MAX. rewrite ulong_mod_eq. lia. }
  rewrite (round_up_to_page_size_eq _ Hr).
  assert (Hpages : 4096 * ((code_len eng + 4095) / 4096) / 4096
                   = (code_len eng + 4095) / 4096)
    by (rewrite Z.mul_comm; apply Z.div_mul; lia).
  rewrite Hpages.
  pose proof (Z.div_mod (code_len eng + 4095) 4096 ltac:(lia)) as Hdm.
  pose proof (Z.mod_pos_bound (code_len eng + 4095) 4096 ltac:(lia)) as Hmb.
  change (2 ^ 32) with 4294967296 in Hl. change (2 ^ 20) with 1048576.
  assert (Hq : (code_len eng + 4095) / 4096 < 1048577).
  { apply Z.div_lt_upper_bound; lia. }
  repeat split; lia.
Qed.

Lemma ee_code_pages_cover_witness :
  code_len ex_engine <= 4096 * ee_code_pages ex_engine
    < code_len ex_engine + 4096 /\
  0 <= ee_code_pages ex_engine <= 2 ^ 20 /\
  (ee_code_pages ex_engine = 0 <-> code_len ex_engine = 0).
Proof.
  apply (ee_code_pages_cover unit ex_engine).
  vm_compute. split; [discriminate | reflexivity].
Defined.

End PageRoundingMore.

Section MemorySliceMore.

(** X9. A range inside a successful slice is itself a successful slice: on
    a valid region, if slice(offset, len) returns the non-null pointer p
    and [offset', offset' + len') lies within [offset, offset + len) and
    starts before its end, then slice(offset', len') returns
    p + (offset' - offset). *)
Theorem vmctx_get_memory_slice_subrange
    (h : heap) (ctx : vmctx) (mem : local_memory)
    (offset len offset' len' p : Z) :
  valid_memory h ctx mem ->
  is_u32 offset -> is_u32 len -> is_u32 offset' -> is_u32 len' ->
  vmctx_get_memory_slice h ctx offset len = Some p -> p <> NULL ->
  offset <= offset' -> offset' + len' <= offset + len ->
  offset' < offset + len ->
  vmctx_get_memory_slice h ctx offset' len' = Some (p + (offset' - offset)).
Proof.
  intros Hv Ho Hl Ho' Hl' Hs Hnz Hge Hle Hlt.
  destruct (valid_memory_words h ctx mem Hv) as [Hwb Hwd].
  pose proof Hv as [Hn [memp [Hp Hm]] Hb Hbd Hfit].
  rewrite (slice_reads h ctx memp mem) in Hs |- * by assumption.
  destruct (slice_checks_sound mem offset len p Hwb Hwd Ho Hl Hs Hnz)
    as (Hp1 & Hp2 & Hp3 & Hp4).
  rewrite (slice_checks_complete mem offset' len') by (assumption || lia).
  f_equal. lia.
Qed.

Lemma vmctx_get_memory_slice_subrange_witness :
  vmctx_get_memory_slice ex_heap ex_ctx 6 3 = Some (4100 + (6 - 4)).
Proof.
  apply (vmctx_get_memory_slice_subrange ex_heap ex_ctx ex_mem 4 8 6 3 4100).
  - exact ex_valid_memory.
  - vm_compute. split; [discriminate | reflexivity].
  - vm_compute. split; [discriminate | reflexivity].
  - vm_compute. split; [discriminate | reflexivity].
  - vm_compute. split; [discriminate | reflexivity].
  - vm_compute. reflexivity.
  - vm_compute. discriminate.
  - lia.
  - lia.
  - lia.
Defined.

Lemma slice_checks_rejects mem offset len :
  is_ulong (base mem) -> is_ulong (bound mem) ->
  is_u32 offset -> is_u32 len ->
  bound mem = 0 \/ ULONG_MAX < base mem + bound mem ->
  slice_checks mem offset len = Some NULL.
Proof.
  unfold is_ulong, is_u32, U32_MOD, ULONG_MAX, slice_checks.
  intros Hb Hbd Ho Hl Hbad.
  pose proof ulong_mod_eq as HM.
  destruct (to_ulong_add_cases (base mem) offset) as [[Hlt Hbeg] | [Hge Hbeg]];
    try lia; rewrite Hbeg;
  destruct (to_ulong_add_cases (base mem) (bound mem))
    as [[Hlt2 Hre] | [Hge2 Hre]]; try lia; rewrite Hre.
  all: match goal with
       | |- context [to_ulong (?b + ?l)] =>
         destruct (to_ulong_add_cases b l) as [[Hlt3 He] | [Hge3 He]];
           try lia; rewrite He
       end.
  all: repeat match goal with
       | |- context [?a <? ?b] => destruct (Z.ltb_spec a b)
       | |- context [?a <=? ?b] => destruct (Z.leb_spec a b)
       end; simpl; try reflexivity; lia.
Qed.

(** X10. A region that is empty (bound = 0), or whose end base + bound lies
    beyond the address space, yields no slice at all: for every u32 pair
    (offset, len) the result is null. *)
Theorem vmctx_get_memory_slice_degenerate_region
    (h : heap) (ctx : vmctx) (memp : Z) (mem : local_memory)
    (offset len : Z) :
  memories ctx <> NULL ->
  ptr_cells h !! memories ctx = Some memp ->
  mem_cells h !! memp = Some mem ->
  is_ulong (base mem) -> is_ulong (bound mem) ->
  is_u32 offset -> is_u32 len ->
  bound mem = 0 \/ ULONG_MAX < base mem + bound mem ->
  vmctx_get_memory_slice h ctx offset len = Some NULL.
Proof.
  intros Hn Hp Hm Hb Hbd Ho Hl Hbad.
  rewrite (slice_reads h ctx memp mem) by assumption.
  apply slice_checks_rejects; assumption.
Qed.

Lemma vmctx_get_memory_slice_degenerate_region_witness :
  vmctx_get_memory_slice ex_heap_wrapping ex_ctx 0 1 = Some NULL.
Proof.
  apply (vmctx_get_memory_slice_degenerate_region ex_heap_wrapping ex_ctx 128
           ex_mem_wrapping 0 1).
  - discriminate.
  - reflexivity.
  - reflexivity.
  - vm_compute. split; discriminate.
  - vm_compute. split; discriminate.
  - vm_compute. split; [discriminate | reflexivity].
  - vm_compute. split; [discriminate | reflexivity].
  - right. vm_compute. reflexivity.
Defined.

End MemorySliceMore.

(** * More on the run command *)

Section RunMoreInvariant.

Variable module_resolver : Type.
Variable ee_call0 : execution_engine module_resolver -> Z -> option Z.

Local Abbreviation Inv := (Run.Inv ee_call0).
Local Abbreviation step := (Run.step ee_call0).
Local Abbreviation exec := (Run.exec ee_call0).
Local Abbreviation run := (Run.run ee_call0).

Ltac split_step H :=
  repeat match type of H with
  | context [match ?x with _ => _ end] =>
    lazymatch x with
    | context [match _ with _ => _ end] => fail
    | _ => destruct x eqn:?; try discriminate H
    end
  end.

Ltac open_all :=
  repeat match goal with
  | H : exists _, _ |- _ => destruct H
  | H : _ /\ _ |- _ => destruct H
  | H : _ \/ _ |- _ => destruct H
  | H : Some _ = Some _ |- _ => inversion H; clear H; subst
  | H : (_ =? _) = true |- _ => apply Z.eqb_eq in H
  | H : (_ =? _) = false |- _ => apply Z.eqb_neq in H
  | H : negb _ = true |- _ => apply negb_true_iff in H
  | H : negb _ = false |- _ => apply negb_false_iff in H
  | H : ?a <> ?b -> _ |- _ =>
    first [ specialize (H ltac:(discriminate)) | clear H ]
  | H : ?a = ?b -> _ |- _ =>
    first [ specialize (H eq_refl) | clear H ]
  end.

Ltac unfold_all :=
  unfold quiet_inv, sem_inv, log_inv, logged, log_lines in *;
  unfold ctl_inv, wrk_inv, prot_inv, worker_trace, protection_trace,
    reaped, early_return in *.

Ltac unfold_in_step H :=
  unfold Run.step, handle_wasm_run_code_step, code_runner_inner_step,
    signal_step, entry_trap_step, ee_make_code_nx, ee_make_code_x,
    set_memory_nx, set_memory_x, sem_take, sem_up, goto, wgoto, set_req,
    set_sem, set_ret, set_made_nx, set_nx_pages, emit in H;
  simpl in H.

Lemma step_quiet e l s s' :
  Inv e s -> quiet_inv e s -> step e l s = Some s' -> quiet_inv e s'.
Proof.
  intros [Hreq Henv Hctl Hwrk Hprot] Hq Hstep.
  destruct s as [c w rq sm tr mn nx t].
  unfold_all. simpl in *.
  destruct l; unfold_in_step Hstep;
    destruct c, w, mn; simpl in *; split_step Hstep; open_all; subst;
    simpl in *; try congruence;
    intros; try congruence; try reflexivity.
  all: unfold rejection_events;
       repeat match goal with
       | H : ?x = _ |- context [match ?x with _ => _ end] => rewrite H
       | H : ?x <> 0 |- context [?x =? 0] =>
         apply Z.eqb_neq in H; rewrite H
       | H : ?x = 0 |- context [?x =? 0] =>
         apply Z.eqb_eq in H; rewrite H
       end;
       simpl; try congruence.
  all: destruct (user_req e); simpl; congruence.
Qed.

Lemma step_sem e l s s' :
  Inv e s -> sem_inv s -> step e l s = Some s' -> sem_inv s'.
Proof.
  intros [Hreq Henv Hctl Hwrk Hprot] Hs Hstep.
  destruct s as [c w rq sm tr mn nx t].
  unfold_all. simpl in *.
  destruct l; unfold_in_step Hstep;
    destruct c, w; simpl in *; try discriminate Hstep;
    split_step Hstep; try discriminate Hstep;
    open_all; subst; simpl in *; try congruence;
    intros n' Hn'; inversion Hn'; subst;
    try (specialize (Hs _ eq_refl); simpl in Hs; lia); try lia.
Qed.

Lemma step_log e l s s' :
  Inv e s -> log_inv s -> step e l s = Some s' -> log_inv s'.
Proof.
  intros [Hreq Henv Hctl Hwrk Hprot] Hq Hstep.
  destruct s as [c w rq sm tr mn nx t].
  unfold_all. simpl in *.
  destruct l; unfold_in_step Hstep;
    destruct c, w; simpl in *; split_step Hstep; open_all; subst;
    simpl in *; try congruence; try reflexivity; try lia.
Qed.

Lemma inv_worker_request e s :
  Inv e s -> wpc s <> W_none -> req s = user_req e.
Proof.
  intros [Hreq Henv Hctl Hwrk Hprot] Hw. apply Hreq. intros Hc.
  unfold ctl_inv in Hctl. rewrite Hc in Hctl. tauto.
Qed.

Lemma step_fault e l s s' :
  Inv e s -> fault_inv ee_call0 e s -> step e l s = Some s' ->
  fault_inv ee_call0 e s'.
Proof.
  intros Hinv Hf Hstep Hk Hx0 rq0 v0 Hu Hcall.
  pose proof (inv_worker_request e s Hinv) as Hrq.
  destruct Hinv as [Hreq Henv Hctl Hwrk Hprot].
  assert (Hgrow : exists evs, trace s' = evs ++ trace s)
    by exact (step_history _ ee_call0 e l s s' Hstep).
  destruct Hgrow as [evs Hevs].
  destruct (wrk_pc_eq_dec (wpc s) W_killed) as [Hwk | Hnk].
  - destruct (Hf Hwk Hx0 rq0 v0 Hu Hcall) as (Hok & l1 & l2 & Ht & Hin).
    split; [exact Hok |].
    exists (evs ++ l1), l2. split; [| exact Hin].
    rewrite Hevs, Ht, <- List.app_assoc. reflexivity.
  - (* the worker is killed in this step: not by a trap, since the entry
       function is one that returns, but by a fetch from the buffer while
       it is not executable *)
    destruct s as [c w rq sm tr mn nx t].
    unfold_all. simpl in *.
    destruct l; unfold_in_step Hstep;
      [destruct c | destruct w | destruct c | destruct w];
      split_step Hstep; open_all; subst; simpl in *; try congruence.
    match goal with
    | H : code_executable _ _ = false |- _ =>
      unfold code_executable in H; simpl in H; rename H into Hnx
    end.
    unfold code_x0 in Hx0.
    assert (Hrev : mn = true /\ nx = nx_pages_revoked e).
    { destruct mn.
      - split; [reflexivity |].
        destruct c; destruct Hprot as [Hpages _]; try exact Hpages.
        exfalso.
        destruct Hctl as [(Hw & _) | ((Hex & _) & _)]; discriminate.
      - exfalso. destruct Hprot as [Hpages _]. subst nx. congruence. }
    destruct Hrev as [Hmn Hpages]. subst mn nx.
    assert (Hok : set_memory_nx_ok e = true).
    { destruct (set_memory_nx_ok e) eqn:Hok; [reflexivity | exfalso].
      rewrite (nx_pages_revoked_failed _ e Hok) in Hnx. congruence. }
    split; [exact Hok |].
    exists [], t. split; [reflexivity |].
    assert (Hin : In (EvSetMemoryNX (code (ee (sess e)))
                        (ee_code_pages (ee (sess e))))
                     (List.filter is_protection_event t)).
    { destruct c; destruct Hprot as [_ Hp]; rewrite Hp; simpl; tauto. }
    apply List.filter_In in Hin. tauto.
Qed.

Lemma init_aux (e : env module_resolver) : Aux ee_call0 e (init_state e).
Proof.
  constructor.
  - intros _. reflexivity.
  - intros n Hn. discriminate Hn.
  - intros Hk. discriminate Hk.
  - reflexivity.
Qed.

Lemma exec_aux e ls : forall s s',
  Inv e s -> Aux ee_call0 e s -> exec e ls s = Some s' -> Aux ee_call0 e s'.
Proof.
  induction ls as [| l ls IH]; simpl; intros s s' Hinv Haux Hex.
  - inversion Hex. subst. exact Haux.
  - destruct (step e l s) as [s1 |] eqn:Hst; [| discriminate].
    apply (IH s1 s'); [| | exact Hex].
    + exact (step_inv _ ee_call0 e l s s1 Hinv Hst).
    + destruct Haux as [Hq Hs Hf Hl]. constructor.
      * exact (step_quiet e l s s1 Hinv Hq Hst).
      * exact (step_sem e l s s1 Hinv Hs Hst).
      * exact (step_fault e l s s1 Hinv Hf Hst).
      * exact (step_log e l s s1 Hinv Hl Hst).
Qed.

Lemma run_aux e ls s : run e ls = Some s -> Aux ee_call0 e s.
Proof.
  unfold Run.run. apply exec_aux; [apply init_inv | apply init_aux].
Qed.

(** Without a signal the wait is never interrupted. *)
Lemma exec_unsignalled e ls : forall s s',
  signal_free ls -> unsignalled s -> exec e ls s = Some s' -> unsignalled s'.
Proof.
  induction ls as [| l ls IH]; simpl; intros s s' Hfree Hu Hex.
  - inversion Hex. subst. exact Hu.
  - inversion Hfree as [| l0 ls0 Hl Hrest]. subst.
    destruct (step e l s) as [s1 |] eqn:Hst; [| discriminate].
    apply (IH s1 s' Hrest); [| exact Hex].
    destruct Hu as [Hnx Hc].
    destruct s as [c w rq sm tr mn nx t]. unfold unsignalled. simpl in *.
    destruct l; [| | contradiction |]; unfold_in_step Hst;
      [destruct c | destruct w | destruct w];
      split_step Hst; open_all; subst; simpl in *;
      try congruence; split; congruence.
Qed.

End RunMoreInvariant.

Section RunMoreTheorems.

Variable module_resolver : Type.
Variable ee_call0 : execution_engine module_resolver -> Z -> option Z.

Local Abbreviation run := (Run.run ee_call0).

Ltac with_inv H :=
  let Hreq := fresh "Hreq" in
  let Henv := fresh "Henv" in
  let Hctl := fresh "Hctl" in
  let Hwrk := fresh "Hwrk" in
  let Hprot := fresh "Hprot" in
  destruct (run_inv _ ee_call0 _ _ _ H) as [Hreq Henv Hctl Hwrk Hprot].

Ltac with_aux H :=
  let Hquiet := fresh "Hquiet" in
  let Hsem := fresh "Hsem" in
  let Hfault := fresh "Hfault" in
  let Hlog := fresh "Hlog" in
  destruct (run_aux _ ee_call0 _ _ _ H) as [Hquiet Hsem Hfault Hlog].

(** Without a worker the controller is still before the thread creation,
    or it has given up. *)
Lemma no_worker_state (e : env module_resolver) ls s :
  run e ls = Some s -> wpc s = W_none ->
  made_nx s = false /\
  logged e s = match returned s with
               | Some _ => rejection_events (ready (sess e)) (user_req e)
               | None => []
               end /\
  worker_trace s = [] /\ task_ret s = None.
Proof.
  intros Hrun Hw. with_inv Hrun.
  unfold ctl_inv, reaped in Hctl. unfold wrk_inv in Hwrk.
  unfold logged, returned. rewrite Hw in *. simpl in *.
  destruct Hwrk as [Hwt Htr].
  destruct (cpc s); simpl in *;
    repeat match goal with
    | H : exists _, _ |- _ => destruct H
    | H : _ /\ _ |- _ => destruct H
    | H : _ \/ _ |- _ => destruct H
    end;
    try discriminate; try congruence;
    try (destruct (made_nx s);
         repeat match goal with
         | H : exists _, _ |- _ => destruct H
         | H : _ /\ _ |- _ => destruct H
         end; discriminate);
    repeat split; assumption || reflexivity.
Qed.

(** X11. A run request that is turned away (the request cannot be copied,
    the session is not ready, or the worker thread cannot be created)
    never has a worker and leaves the result slot and every page
    protection untouched.  Its only event is the log line of a failed
    thread creation, written before the handler returns: when the handler
    has returned the history is that one line for a request that was copied
    on a ready session, and empty otherwise.  The handler returns [-EFAULT]
    for the failed copy and [-EINVAL] otherwise, and it always can
    return. *)
Theorem run_rejected_without_effects
    (e : env module_resolver) (ls : list label) (s : state) :
  user_req e = None \/ ready (sess e) = 0 \/ kthread_ok e = false ->
  run e ls = Some s ->
  wpc s = W_none /\ task_ret s = None /\ made_nx s = false /\
  nx_pages s = nx_pages0 e /\
  (returned s = None -> history s = []) /\
  (forall r, returned s = Some r ->
     r = match user_req e with
         | None => - EFAULT
         | Some _ => - EINVAL
         end /\
     history s = match user_req e with
                 | None => []
                 | Some _ => if ready (sess e) =? 0 then []
                             else [EvLogNoRunner]
                 end) /\
  (exists ls' s' r, run e (ls ++ ls') = Some s' /\ returned s' = Some r).
Proof.
  intros Hrej Hrun.
  assert (Hw : wpc s = W_none).
  { with_inv Hrun.
    destruct (wrk_pc_eq_dec (wpc s) W_none) as [Hw | Hw]; [exact Hw |].
    destruct (Henv Hw) as (Hr & Hk & Hu).
    destruct Hrej as [H | [H | H]]; congruence. }
  destruct (no_worker_state e ls s Hrun Hw) as (Hnx & Hlg & Hwt & Htr).
  with_inv Hrun. with_aux Hrun.
  assert (Hhist : history s = rev (logged e s)).
  { unfold history. rewrite (Hquiet Hnx), Hwt, List.app_nil_r. reflexivity. }
  split; [exact Hw |]. split; [exact Htr |]. split; [exact Hnx |].
  split; [| split; [| split]].
  - unfold prot_inv in Hprot. rewrite Hnx in Hprot. tauto.
  - intros Hret. rewrite Hhist, Hlg, Hret. reflexivity.
  - intros r Hret. split.
    + destruct (returned_cases _ ee_call0 e ls s r Hrun Hret)
        as [(_ & Hearly & _) | ((Hex & _) & _)].
      * unfold early_return in Hearly.
        destruct Hearly as [[Hr Hu] | [(Hr & Hu & _) | (Hr & Hu & _)]];
          destruct (user_req e); congruence.
      * rewrite Hw in Hex. discriminate Hex.
    + rewrite Hhist, Hlg, Hret. unfold rejection_events.
      destruct (user_req e); [| reflexivity].
      destruct (ready (sess e) =? 0); reflexivity.
  - exact (run_can_return _ ee_call0 e ls s Hrun).
Qed.

(** X12. When the handler returns, the worker is gone: there never was one,
    or it has exited.  The handler writes its log line, which reads the
    result slot, only after the worker has exited, and it writes at most
    one. *)
Theorem worker_gone_when_handler_returns
    (e : env module_resolver) (ls : list label) (s : state) :
  run e ls = Some s ->
  (forall r, returned s = Some r ->
     wpc s = W_none \/ exited (wpc s) = true) /\
  (forall ev, In ev (history s) -> is_log_event ev = true ->
     exited (wpc s) = true) /\
  (length (List.filter is_log_event (history s)) <= 1)%nat.
Proof.
  intros Hrun. with_inv Hrun. with_aux Hrun.
  unfold log_inv, log_lines in Hlog.
  assert (Hlen : length (List.filter is_log_event (history s))
                 = length (List.filter is_log_event (trace s))).
  { unfold history. rewrite List.filter_rev, List.length_rev. reflexivity. }
  split; [| split].
  - intros r Hret.
    destruct (returned_cases _ ee_call0 e ls s r Hrun Hret)
      as [(Hw & _) | ((Hex & _) & _)]; tauto.
  - intros ev Hin Hev.
    assert (Hpos : (1 <= length (List.filter is_log_event (trace s)))%nat).
    { assert (Hin' : In ev (List.filter is_log_event (trace s))).
      { apply List.filter_In. split; [| exact Hev].
        unfold history in Hin. apply List.in_rev in Hin. exact Hin. }
      destruct (List.filter is_log_event (trace s)); [contradiction |].
      simpl. lia. }
    rewrite Hlog in Hpos. unfold ctl_inv, reaped in Hctl.
    destruct (cpc s); try lia.
    + tauto.
    + tauto.
    + destruct Hctl as [(Hw & _) | ((Hex & _) & _)]; [| exact Hex].
      rewrite Hw in Hpos. lia.
  - rewrite Hlen, Hlog. destruct (cpc s); try lia. destruct (wpc s); lia.
Qed.

Lemma filter_call_worker (h : list event) :
  List.filter is_call_event h
  = List.filter is_call_event (List.filter is_worker_event h).
Proof.
  induction h as [| ev h IH]; simpl; [reflexivity |].
  destruct ev; simpl; rewrite ?IH; reflexivity.
Qed.

Lemma worker_event_has_worker (e : env module_resolver) ls s ev :
  run e ls = Some s ->
  In ev (List.filter is_worker_event (history s)) -> wpc s <> W_none.
Proof.
  intros Hrun Hin Hw. with_inv Hrun.
  unfold wrk_inv in Hwrk. rewrite Hw in Hwrk. destruct Hwrk as [Hwt _].
  rewrite worker_history, Hwt in Hin. exact Hin.
Qed.

Ltac shape_cases Hshape :=
  inversion Hshape as [ Hr Hl | Hr Hl | rq' Hu' Hp' Hr Hl | rq' Hu' Hp' Hr Hl
                      | rq' Hu' Hp' Hr Hl | rq' v' Hu' Hp' Hc' Hr Hw' Hl
                      | rq' v' Hu' Hp' Hc' Hr Hw' Hl ].

(** X13. In one run the entry function is called at most once, and only
    with the offset of the request, for a request with parameter count 0 on
    a ready session, after the "started" release. *)
Theorem entry_called_at_most_once
    (e : env module_resolver) (ls : list label) (s : state) :
  run e ls = Some s ->
  (length (List.filter is_call_event (history s)) <= 1)%nat /\
  (forall offset, In (EvCall offset) (history s) ->
     exists rq, user_req e = Some rq /\ offset = entry_offset rq /\
                param_count rq = 0 /\ ready (sess e) <> 0 /\
                kthread_ok e = true /\
                before EvStarted (EvCall offset) (history s)).
Proof.
  intros Hrun.
  pose proof (worker_history_shape _ ee_call0 e ls s Hrun) as Hshape.
  split.
  - rewrite filter_call_worker.
    shape_cases Hshape; simpl; lia.
  - intros offset Hin.
    assert (Hinw : In (EvCall offset)
                      (List.filter is_worker_event (history s)))
      by (apply List.filter_In; split; [exact Hin | reflexivity]).
    pose proof (worker_event_has_worker e ls s _ Hrun Hinw) as Hw.
    with_inv Hrun. destruct (Henv Hw) as (Hready & Hk & _).
    shape_cases Hshape; rewrite <- Hl in Hinw; simpl in Hinw;
      try solve [intuition discriminate].
    all: assert (Hoff : offset = entry_offset rq')
           by (intuition (try discriminate; congruence)).
    all: exists rq'; repeat split; try assumption.
    all: apply (before_of_filter is_worker_event); rewrite <- Hl; subst offset.
    + exists [], [], []. reflexivity.
    + exists [], [], [EvFault]. reflexivity.
    + exists [], [], [EvStore v']. reflexivity.
    + exists [], [], [EvStore v'; EvFinished]. reflexivity.
Qed.


(** X15. For a code buffer that is executable on entry, and when
    [set_memory_x] succeeds: the buffer has a page without execute
    permission only while the controller is between a successful
    [ee_make_code_nx] and [ee_make_code_x], after an interrupted wait.
    And when the entry function is one that returns, the worker is killed
    in it only by that: the fault comes after the successful call of
    [set_memory_nx] on the pages of the code. *)
Theorem execute_permission_revoked_only_by_cancel
    (e : env module_resolver) (ls : list label) (s : state) :
  is_u32 (code_len (ee (sess e))) ->
  code_x0 e = true -> set_memory_x_ok e = true -> run e ls = Some s ->
  (code_executable e s = false ->
     made_nx s = true /\ set_memory_nx_ok e = true /\
     in_forced_termination s) /\
  (forall rq v,
     user_req e = Some rq ->
     ee_call0 (ee (sess e)) (entry_offset rq) = Some v ->
     In EvFault (history s) ->
     made_nx s = true /\ set_memory_nx_ok e = true /\
     before (EvSetMemoryNX (code (ee (sess e))) (ee_code_pages (ee (sess e))))
            EvFault (history s)).
Proof.
  intros Hlen Hx0 Hxok Hrun. with_inv Hrun. with_aux Hrun.
  unfold prot_inv in Hprot.
  set (nx := EvSetMemoryNX (code (ee (sess e))) (ee_code_pages (ee (sess e))))
    in *.
  assert (Hnx_in : In nx (trace s) -> made_nx s = true).
  { intros Hin. destruct (made_nx s); [reflexivity |].
    destruct Hprot as [_ Hp].
    assert (Hin' : In nx (protection_trace s))
      by (apply List.filter_In; split; [exact Hin | reflexivity]).
    rewrite Hp in Hin'. contradiction. }
  split.
  - intros Hx. unfold code_executable in Hx. unfold code_x0 in Hx0.
    destruct (made_nx s) eqn:Hnx.
    + split; [reflexivity |].
      assert (Hcases : in_forced_termination s /\
                       nx_pages s = nx_pages_revoked e).
      { unfold ctl_inv in Hctl. unfold in_forced_termination.
        destruct (cpc s) eqn:Hc; destruct Hprot as [Hpages _];
          try solve [exfalso; decompose [and ex] Hctl; congruence];
          try solve [split; [tauto | exact Hpages]].
        - split; [| exact Hpages]. right. left. eexists. reflexivity.
        - exfalso.
          rewrite Hpages, (nx_pages_restored_eq _ e Hlen Hx0 Hxok) in Hx.
          congruence. }
      destruct Hcases as [Hforced Hpages]. split; [| exact Hforced].
      destruct (set_memory_nx_ok e) eqn:Hok; [reflexivity | exfalso].
      rewrite Hpages, (nx_pages_revoked_failed _ e Hok) in Hx. congruence.
    + destruct Hprot as [Hpages _]. rewrite Hpages in Hx. congruence.
  - intros rq v Hu Hcall Hin.
    assert (Hk : wpc s = W_killed).
    { assert (Hinw : In EvFault (worker_trace s)).
      { apply List.filter_In. split; [| reflexivity].
        unfold history in Hin. apply List.in_rev in Hin. exact Hin. }
      unfold wrk_inv in Hwrk.
      destruct (wpc s); try reflexivity;
        repeat match goal with
        | H : exists _, _ |- _ => destruct H
        | H : _ /\ _ |- _ => destruct H
        end;
        match goal with
        | H : worker_trace s = _ |- _ => rewrite H in Hinw
        end; simpl in Hinw; intuition discriminate. }
    destruct (Hfault Hk Hx0 rq v Hu Hcall) as (Hok & l1 & l2 & Ht & Hnx).
    split; [| split; [exact Hok |]].
    + apply Hnx_in. rewrite Ht. apply in_or_app. right. right. exact Hnx.
    + apply List.in_rev in Hnx.
      apply in_split in Hnx as (a & b & Hab).
      exists a, b, (rev l1). unfold history.
      rewrite Ht, List.rev_app_distr. simpl.
      rewrite Hab, <- !List.app_assoc. simpl. reflexivity.
Qed.

(** X16. The semaphore never holds more releases than the worker has made,
    hence never more than two. *)
Theorem semaphore_count_bounded
    (e : env module_resolver) (ls : list label) (s : state) (n : nat) :
  run e ls = Some s -> sem s = Some n ->
  (n <= ups (wpc s))%nat /\ (n <= 2)%nat.
Proof.
  intros Hrun Hn. with_aux Hrun.
  pose proof (Hsem n Hn) as Hle.
  split; [exact Hle |].
  destruct (wpc s); simpl in Hle; lia.
Qed.


(** X18. Without a signal the handler does not get past its second wait
    unless the worker makes both releases: for a request with a nonzero
    parameter count, or an entry function that never returns, no schedule
    without a signal brings the handler to its return. *)
Theorem no_return_without_signal
    (e : env module_resolver) (ls : list label) (s : state)
    (rq : run_code_request) :
  signal_free ls -> run e ls = Some s ->
  user_req e = Some rq -> ready (sess e) <> 0 -> kthread_ok e = true ->
  param_count rq <> 0 \/
  ee_call0 (ee (sess e)) (entry_offset rq) = None ->
  returned s = None.
Proof.
  intros Hfree Hrun Hu Hready Hk Hbad.
  destruct (returned s) as [r |] eqn:Hret; [exfalso | reflexivity].
  destruct (started_run_returns _ ee_call0 e ls s r Hrun Hret)
    as ((_ & Hd & _) & _ & _); try assumption; [congruence |].
  assert (Hun : unsignalled s).
  { apply (exec_unsignalled _ ee_call0 e ls (init_state e) s Hfree);
      [| exact Hrun].
    split; [reflexivity | discriminate]. }
  destruct Hun as [Hnx _]. specialize (Hd Hnx).
  pose proof (worker_request _ ee_call0 e ls s Hrun) as Hrq.
  with_inv Hrun. unfold wrk_inv in Hwrk. rewrite Hd in Hwrk.
  destruct Hwrk as (rq' & v & Hq & Hp & Hc & _).
  rewrite Hrq in Hq by (rewrite Hd; discriminate).
  assert (rq' = rq) by congruence. subst rq'.
  destruct Hbad as [Hnz | Hdiv]; congruence.
Qed.

(** A handler that returns from a started run without having been
    interrupted has seen both releases of the worker. *)
Lemma uninterrupted_return_needs_both_releases
    (e : env module_resolver) ls s r :
  signal_free ls -> run e ls = Some s -> returned s = Some r ->
  user_req e <> None -> ready (sess e) <> 0 -> kthread_ok e = true ->
  made_nx s = false /\ wpc s = W_exit_done /\
  exists rq, user_req e = Some rq /\ param_count rq = 0.
Proof.
  intros Hfree Hrun Hret Hu Hready Hk.
  destruct (started_run_returns _ ee_call0 e ls s r Hrun Hret Hu Hready Hk)
    as ((_ & Hd & _) & _ & _).
  assert (Hun : unsignalled s).
  { apply (exec_unsignalled _ ee_call0 e ls (init_state e) s Hfree);
      [| exact Hrun].
    split; [reflexivity | discriminate]. }
  destruct Hun as [Hnx _]. specialize (Hd Hnx).
  split; [exact Hnx |]. split; [exact Hd |].
  pose proof (worker_request _ ee_call0 e ls s Hrun) as Hrq.
  with_inv Hrun. unfold wrk_inv in Hwrk. rewrite Hd in Hwrk.
  destruct Hwrk as (rq & v & Hq & Hp & _).
  rewrite Hrq in Hq by (rewrite Hd; discriminate).
  exists rq. split; [exact Hq | exact Hp].
Qed.

End RunMoreTheorems.

Section RunMoreExamples.

Local Abbreviation ex_run := (Run.run ex_call0).

Example not_ready_final : ex_run ex_env_not_ready [Ctl; Ctl] = Some final_not_ready.
Proof. reflexivity. Qed.

Example fault_state : ex_run (ex_env 16 0) sched_fault = Some after_fault.
Proof. reflexivity. Qed.

Example late_release_state :
  ex_run (ex_env 0 0) sched_late_release = Some after_late_release.
Proof. reflexivity. Qed.

Example invalid_blocked_state :
  ex_run (ex_env 0 1) sched_invalid_unsignalled = Some blocked_invalid.
Proof. reflexivity. Qed.

(** In that state neither the controller nor the worker can move. *)
Example invalid_blocked_stuck :
  Run.step ex_call0 (ex_env 0 1) Ctl blocked_invalid = None /\
  Run.step ex_call0 (ex_env 0 1) Wrk blocked_invalid = None.
Proof. split; reflexivity. Qed.

Lemma run_rejected_without_effects_witness :
  wpc final_no_runner = W_none /\ task_ret final_no_runner = None /\
  made_nx final_no_runner = false /\
  nx_pages final_no_runner = nx_pages0 ex_env_no_runner /\
  (returned final_no_runner = None -> history final_no_runner = []) /\
  (forall r, returned final_no_runner = Some r ->
     r = match user_req ex_env_no_runner with
         | None => - EFAULT
         | Some _ => - EINVAL
         end /\
     history final_no_runner
     = match user_req ex_env_no_runner with
       | None => []
       | Some _ => if ready (sess ex_env_no_runner) =? 0 then []
                   else [EvLogNoRunner]
       end) /\
  (exists ls' s' r,
     ex_run ex_env_no_runner ([Ctl; Ctl; Ctl; Ctl] ++ ls') = Some s' /\
     returned s' = Some r).
Proof.
  apply (run_rejected_without_effects unit ex_call0 ex_env_no_runner
           [Ctl; Ctl; Ctl; Ctl] final_no_runner).
  - right. right. reflexivity.
  - reflexivity.
Defined.

Lemma worker_gone_when_handler_returns_witness :
  (forall r, returned final_normal = Some r ->
     wpc final_normal = W_none \/ exited (wpc final_normal) = true) /\
  (forall ev, In ev (history final_normal) -> is_log_event ev = true ->
     exited (wpc final_normal) = true) /\
  (length (List.filter is_log_event (history final_normal)) <= 1)%nat.
Proof.
  apply (worker_gone_when_handler_returns unit ex_call0 (ex_env 0 0)
           sched_normal final_normal).
  reflexivity.
Defined.

Lemma entry_called_at_most_once_witness :
  (length (List.filter is_call_event (history final_normal)) <= 1)%nat /\
  (forall offset, In (EvCall offset) (history final_normal) ->
     exists rq, user_req (ex_env 0 0) = Some rq /\
                offset = entry_offset rq /\
                param_count rq = 0 /\ ready (sess (ex_env 0 0)) <> 0 /\
                kthread_ok (ex_env 0 0) = true /\
                before EvStarted (EvCall offset) (history final_normal)).
Proof.
  apply (entry_called_at_most_once unit ex_call0 (ex_env 0 0) sched_normal
           final_normal).
  reflexivity.
Defined.


Lemma execute_permission_revoked_only_by_cancel_witness :
  (code_executable (ex_env 0 0) after_late_release = false ->
     made_nx after_late_release = true /\
     set_memory_nx_ok (ex_env 0 0) = true /\
     in_forced_termination after_late_release) /\
  (forall rq v,
     user_req (ex_env 0 0) = Some rq ->
     ex_call0 (ee (sess (ex_env 0 0))) (entry_offset rq) = Some v ->
     In EvFault (history after_late_release) ->
     made_nx after_late_release = true /\
     set_memory_nx_ok (ex_env 0 0) = true /\
     before (EvSetMemoryNX 8192 (ee_code_pages ex_engine)) EvFault
            (history after_late_release)).
Proof.
  apply (execute_permission_revoked_only_by_cancel unit ex_call0
           (ex_env 0 0) sched_late_release after_late_release).
  - vm_compute. split; [discriminate | reflexivity].
  - reflexivity.
  - reflexivity.
  - reflexivity.
Defined.

(** The entry function at offset 0 returns, and still the worker is killed
    in it when the signal comes first. *)
Example returning_entry_killed :
  ex_call0 ex_engine 0 = Some 42 /\
  option_map history (ex_run (ex_env 0 0) sched_killed_early)
  = Some [EvStarted; EvCall 0; EvSetMemoryNX 8192 1; EvFault; EvLogBad 11;
          EvSetMemoryX 8192 1].
Proof. split; reflexivity. Qed.

Lemma semaphore_count_bounded_witness :
  (1 <= ups (wpc after_late_release))%nat /\ (1 <= 2)%nat.
Proof.
  apply (semaphore_count_bounded unit ex_call0 (ex_env 0 0)
           sched_late_release after_late_release 1%nat).
  - reflexivity.
  - reflexivity.
Defined.


Lemma no_return_without_signal_witness : returned blocked_invalid = None.
Proof.
  apply (no_return_without_signal unit ex_call0 (ex_env 0 1)
           sched_invalid_unsignalled blocked_invalid
           (mk_run_code_request 0 1)).
  - repeat constructor; discriminate.
  - reflexivity.
  - reflexivity.
  - simpl. lia.
  - reflexivity.
  - left. simpl. lia.
Defined.

(** A trap of the entry code kills the worker without a second release:
    the handler stays blocked, as it is after a request with a nonzero
    parameter count, until a signal arrives. *)
Example trap_state : ex_run (ex_env 16 0) sched_trap = Some after_trap.
Proof. reflexivity. Qed.

Example trap_blocks :
  forall l, l <> Sig -> Run.step ex_call0 (ex_env 16 0) l after_trap = None.
Proof. intros l Hl. destruct l; try reflexivity. contradiction. Qed.

(** The handler does not look at the result of [set_memory_x]: when the
    call fails, the handler returns 0 all the same and the page of the
    code is left without execute permission. *)
Example restore_fails :
  option_map (fun s => (returned s, nx_pages s,
                        code_executable ex_env_x_fails s))
             (ex_run ex_env_x_fails sched_forced)
  = Some (Some 0, {[ 2 ]}, false).
Proof. reflexivity. Qed.

(** C3, code bug. A run request with parameter count 1 on a ready session.
    The worker makes its first release, logs "invalid param count" and
    returns: it makes no call, but it also skips the second release the
    handler waits for.  So the request is not refused: the handler stays in
    [down_interruptible], where neither thread can move, and no schedule
    without a signal brings it to its return.  When a signal arrives, the
    handler goes through the forced termination of a worker that has
    exited already, logs the result slot that was never written, and
    returns 0, the status of a successful run; 0 is the only value it can
    return for this request, while a run on a session that is not ready is
    refused with [-EINVAL]. *)
Theorem run_nonzero_param_count_not_rejected :
  param_count (mk_run_code_request 0 1) <> 0 /\
  user_req (ex_env 0 1) = Some (mk_run_code_request 0 1) /\
  ready (sess (ex_env 0 1)) <> 0 /\
  ex_run (ex_env 0 1) sched_invalid_unsignalled = Some blocked_invalid /\
  history blocked_invalid = [EvStarted; EvInvalidParam] /\
  cpc blocked_invalid = C_down_interruptible /\
  (forall l, l <> Sig ->
     Run.step ex_call0 (ex_env 0 1) l blocked_invalid = None) /\
  (forall ls s, signal_free ls -> ex_run (ex_env 0 1) ls = Some s ->
     returned s = None) /\
  ex_run (ex_env 0 1) sched_invalid = Some final_invalid /\
  returned final_invalid = Some 0 /\
  history final_invalid
  = [EvStarted; EvInvalidParam; EvSetMemoryNX 8192 1; EvLogResult None;
     EvSetMemoryX 8192 1] /\
  (forall ls r, Run.run_outcome ex_call0 (ex_env 0 1) ls = Some r -> r = 0) /\
  Run.run_outcome ex_call0 ex_env_not_ready [Ctl; Ctl] = Some (- EINVAL).
Proof.
  assert (Hu : user_req (ex_env 0 1) <> None) by discriminate.
  assert (Hready : ready (sess (ex_env 0 1)) <> 0) by (simpl; lia).
  split; [simpl; lia |]. split; [reflexivity |]. split; [exact Hready |].
  split; [reflexivity |]. split; [reflexivity |]. split; [reflexivity |].
  split; [intros l Hl; destruct l; try reflexivity; contradiction |].
  split.
  { intros ls s Hfree Hrun.
    destruct (returned s) as [r |] eqn:Hret; [exfalso | reflexivity].
    destruct (uninterrupted_return_needs_both_releases unit ex_call0
                (ex_env 0 1) ls s r Hfree Hrun Hret Hu Hready eq_refl)
      as (_ & _ & rq & Hq & Hp).
    inversion Hq. subst rq. discriminate Hp. }
  split; [reflexivity |]. split; [reflexivity |]. split; [reflexivity |].
  split; [| reflexivity].
  intros ls r Hout. unfold Run.run_outcome in Hout.
  destruct (ex_run (ex_env 0 1) ls) as [s |] eqn:Hrun; [| discriminate Hout].
  destruct (started_run_returns unit ex_call0 (ex_env 0 1) ls s r Hrun Hout
              Hu Hready eq_refl) as (_ & _ & H0).
  exact H0.
Qed.

End RunMoreExamples.
